(** * The downloader: projects, file snapshots and the content store

    A shallow embedding of [src/downloader/downloader.cpp].  The program's
    memory (the static counters and tables, the worker's own snapshot set)
    and the outside world it touches (directories, blob files, the git
    layer, the log) are threaded through explicitly; every external call
    the code makes leaves an event in a trace so that "fetched", "stored"
    and "reported" can be stated as facts about that trace. *)

From Stdlib Require Import ZArith Lia Ascii String.
From stdpp Require Import base option list strings pretty gmap.

Local Open Scope Z_scope.
Local Open Scope string_scope.

(** ** [long]: 64-bit two's complement

    [static_assert(sizeof(long) == 8)] fixes the width. *)

Definition LONG_MAX : Z := 2 ^ 63 - 1.
Definition LONG_MIN : Z := - 2 ^ 63.

Definition is_long (z : Z) : Prop := LONG_MIN <= z <= LONG_MAX.

(** Reduction of a mathematical integer to the value a [long] holds. *)
Definition wrap64 (z : Z) : Z := (z + 2 ^ 63) mod 2 ^ 64 - 2 ^ 63.

(** Reduction to a [std::size_t]. *)
Definition wrap_size_t (z : Z) : Z := z mod 2 ^ 64.

(** ** [class Project] *)

Module Project.

(** [hasDeniedFiles_] has no initialiser in any constructor: [None] is
    the indeterminate value it holds until [processFiles] stores [true]. *)
Record t : Type := mk {
  id_ : Z;
  gitUrl_ : string;
  localPath_ : string;
  hasDeniedFiles_ : option bool
}.

Definition id (p : t) : Z := id_ p.
Definition gitUrl (p : t) : string := gitUrl_ p.
Definition localPath (p : t) : string := localPath_ p.

Definition setLocalPath (path : string) (p : t) : t :=
  mk (id_ p) (gitUrl_ p) path (hasDeniedFiles_ p).

Definition setHasDeniedFiles (b : bool) (p : t) : t :=
  mk (id_ p) (gitUrl_ p) (localPath_ p) (Some b).

(** [operator <<]: [gitUrl [id]]. *)
Definition show (p : t) : string :=
  gitUrl p ++ " [" ++ pretty (id p) ++ "]".

(** [Project(gitUrl)]: [id_(idIndex_++)].  The static [idIndex_] is passed
    in and handed back; an atomic increment wraps. *)
Definition create (gitUrl : string) (idIndex_ : Z) : t * Z :=
  (mk idIndex_ gitUrl "" None, wrap64 (idIndex_ + 1)).

(** The loop of [Project(gitUrl, id)]:
    [while (idIndex_ <= id) { old = idIndex_;
       if (idIndex_.compare_exchange_weak(old, id + 1)) break; }].
    A weak compare-exchange may fail although the value still equals
    [old]; [spurious] counts how many times it does so before it gets
    through.  With a single thread creating projects nothing else can
    change [idIndex_] between the read and the exchange.  [id + 1] is
    [long] arithmetic: one past [LONG_MAX] it comes out as [LONG_MIN]. *)
Fixpoint raiseIdIndex (spurious : nat) (id idIndex_ : Z) : Z :=
  if decide (idIndex_ <= id) then
    match spurious with
    | O => wrap64 (id + 1)
    | S n => raiseIdIndex n id idIndex_
    end
  else idIndex_.

(** [Project(gitUrl, id)]. *)
Definition createWithId (spurious : nat) (gitUrl : string) (id : Z)
    (idIndex_ : Z) : t * Z :=
  (mk id gitUrl "" None, raiseIdIndex spurious id idIndex_).

(** [Project()]: the default constructor the worker framework asks for. *)
Definition default : t := mk (-1) "" "" None.

End Project.

(** ** The git layer's records ([git.h]) *)

Module Git.

(** Fields as the code reads them: [file.filename], and in [main]'s
    commented block [x.created]. *)
Record FileInfo : Type := mkFileInfo {
  fi_filename : string;
  created : Z
}.

(** [h.hash], [h.filename], [h.date]. *)
Record FileHistory : Type := mkFileHistory {
  hash : string;
  filename : string;
  date : Z
}.

End Git.

(** ** [class FileSnapshot] *)

Module FileSnapshot.

(** [contentId_] is [None] when it was assigned from a call that ended
    without a [return] (see [getContentId] below). *)
Record t : Type := mk {
  id_ : Z;
  commit_ : string;
  relPath_ : string;
  contentId_ : option Z;
  time_ : Z
}.

Definition commit (f : t) : string := commit_ f.
Definition relPath (f : t) : string := relPath_ f.

(** [FileSnapshot(Git::FileHistory const & h)]. *)
Definition ofHistory (h : Git.FileHistory) : t :=
  mk (-1) (Git.hash h) (Git.filename h) (Some (-1)) (Git.date h).

Definition setId (i : Z) (f : t) : t :=
  mk i (commit_ f) (relPath_ f) (contentId_ f) (time_ f).

Definition setContentId (c : option Z) (f : t) : t :=
  mk (id_ f) (commit_ f) (relPath_ f) c (time_ f).

(** [operator ==]. *)
Definition eqb (a b : t) : bool :=
  bool_decide (commit_ a = commit_ b) && bool_decide (relPath_ a = relPath_ b).

(** [std::hash<FileSnapshot>], over whatever [std::hash<std::string>] the
    standard library provides; [std::size_t] addition wraps. *)
Definition hash (hash_string : string → Z) (f : t) : Z :=
  wrap_size_t (hash_string (commit f) + hash_string (relPath f)).

(** The identity that [eqb] compares. *)
Definition key (f : t) : string * string := (commit_ f, relPath_ f).

End FileSnapshot.

(** ** [std::strtol(s, _, 10)]

    The C library function, as the standard describes it: leading white
    space is skipped, one optional sign is read, then as many decimal
    digits as there are; without a digit the result is 0; a value out of
    range is replaced by [LONG_MAX] or [LONG_MIN].  It reports nothing by
    exception. *)

Module Strtol.

Definition isspace (a : ascii) : bool :=
  let n := nat_of_ascii a in
  bool_decide (n = 32%nat) || (bool_decide (9 ≤ n)%nat && bool_decide (n ≤ 13)%nat).

Definition digit (a : ascii) : option Z :=
  let n := Z.of_nat (nat_of_ascii a) in
  if decide (48 <= n <= 57) then Some (n - 48) else None.

Fixpoint skipSpace (s : string) : string :=
  match s with
  | String a rest => if isspace a then skipSpace rest else s
  | EmptyString => s
  end.

Fixpoint digits (acc : Z) (s : string) : Z :=
  match s with
  | String a rest =>
      match digit a with
      | Some d => digits (acc * 10 + d) rest
      | None => acc
      end
  | EmptyString => acc
  end.

Definition strtol (s : string) : Z :=
  match skipSpace s with
  | String "-" rest => Z.max LONG_MIN (- digits 0 rest)
  | String "+" rest => Z.min LONG_MAX (digits 0 rest)
  | rest => Z.min LONG_MAX (digits 0 rest)
  end.

End Strtol.


(** ** The outside world

    Directories and regular files by path, and the git layer's own state
    (clones, what is checked out where), which only the git layer reads. *)

Record World (G : Type) : Type := mkWorld {
  dirs : gset string;
  files : gmap string string;
  git : G
}.
Arguments mkWorld {G} _ _ _.
Arguments dirs {G} _.
Arguments files {G} _.
Arguments git {G} _.

(** [path] itself or something beneath it. *)
Definition beneath (path q : string) : bool :=
  bool_decide (q = path) || String.prefix (path ++ "/") q.

(** Modelled from the spec: [isDirectory] of [include/filesystem.h], one
    of the filesystem path utilities the spec lists as external
    collaborators: whether a directory occupies the path. *)
Definition isDirectory {G} (path : string) (w : World G) : bool :=
  bool_decide (path ∈ dirs w).

(** Modelled from the spec: [deletePath] of [include/filesystem.h], which
    "removes the workspace directory": the path and all beneath it go. *)
Definition deletePath {G} (path : string) (w : World G) : World G :=
  mkWorld (filter (λ q, beneath path q = false) (dirs w))
          (filter (λ kv, beneath path kv.1 = false) (files w))
          (git w).

(** Modelled from the spec: [createPathIfMissing] of
    [include/filesystem.h]: afterwards the path exists as a directory. *)
Definition createPathIfMissing {G} (path : string) (w : World G) : World G :=
  mkWorld ({[ path ]} ∪ dirs w) (files w) (git w).

(** [std::ofstream out(path); out << text; out.close();] *)
Definition writeFile {G} (path text : string) (w : World G) : World G :=
  mkWorld (dirs w) (<[ path := text ]> (files w)) (git w).

(** ** External collaborators

    Everything [downloader.cpp] includes but does not define: the hash
    primitive ([include/hash.h]), the path scheme ([include/settings.h]),
    the pattern list ([include/pattern_lists.h]), the delimited-text reader
    ([include/csv.h]) and the git process layer ([git.h]).  Calls that
    change what is on disk return the new world. *)

Record Env : Type := mkEnv {
  G : Type;
  Hash : Type;
  Hash_eq_dec :: EqDecision Hash;
  Hash_countable :: Countable Hash;
  (** [Hash::Calculate(text)] *)
  Calculate : string → Hash;
  (** [Settings::OutputPath], [Settings::IdToPath(id)],
      [Settings::ClosesPathDir(id)] *)
  OutputPath : string;
  IdToPath : Z → string;
  ClosesPathDir : Z → bool;
  (** [filePattern_.check(filename, denied)]: the returned flag and the
      value left in [denied]. *)
  filePattern_check : string → bool * bool;
  (** [for (auto x : CSVParser(filename))]: the rows of the file. *)
  CSVParser : string → World G → list (list string);
  (** [Git::Clone(url, into)] *)
  Git_Clone : string → string → World G → bool * World G;
  (** [Git::GetBranches(path)]: the set, in the order its iterators walk it. *)
  Git_GetBranches : string → World G → list string;
  (** [Git::GetCurrentBranch(path)] *)
  Git_GetCurrentBranch : string → World G → string;
  (** [Git::SetBranch(path, branch)] *)
  Git_SetBranch : string → string → World G → bool * World G;
  (** [Git::GetFileInfo(path)] *)
  Git_GetFileInfo : string → World G → list Git.FileInfo;
  (** [Git::GetFileHistory(path, file)] *)
  Git_GetFileHistory : string → Git.FileInfo → World G → list Git.FileHistory;
  (** [Git::GetFileRevision(path, fh, text)]: [Some text] when it returns
      [true], [None] when it returns [false]. *)
  Git_GetFileRevision : string → Git.FileHistory → World G → option string;
  (** How often a weak compare-exchange fails spuriously before it succeeds. *)
  casSpurious : nat
}.

(** ** What the program does to the outside, in order *)

Inductive Event : Type :=
  | EvLog (msg : string)
  | EvError (msg : string)
  | EvStdout (text : string)
  | EvSchedule (task : Project.t)
  | EvClone (url path : string) (ok : bool)
  | EvSetBranch (path branch : string) (ok : bool)
  | EvGetFileRevision (path : string) (fh : Git.FileHistory) (ok : bool)
  | EvCreatePath (path : string)
  | EvDeletePath (path : string)
  | EvWrite (path text : string).

(** ** The program's memory, one worker's view

    [idIndex_] and [fileHashes_] are static, [files_] is the member of the
    [Downloader] object whose [run] is being executed. *)

Record Machine (E : Env) : Type := mkMachine {
  idIndex_ : Z;
  fileHashes_ : gmap (Hash E) Z;
  files_ : list FileSnapshot.t;
  world : World (G E);
  trace : list Event
}.
Arguments mkMachine {E} _ _ _ _ _.
Arguments idIndex_ {E} _.
Arguments fileHashes_ {E} _.
Arguments files_ {E} _.
Arguments world {E} _.
Arguments trace {E} _.

(** How a call ends: by returning, or by an exception leaving it. *)
Inductive outcome (A : Type) : Type :=
  | Returned (a : A)
  | Thrown (what : string).
Arguments Returned {A} _.
Arguments Thrown {A} _.

(** [std::unordered_set<FileSnapshot>]: membership and insertion go through
    [operator ==]; the list keeps insertion order, which the code never
    looks at. *)
Definition files_contains (fs : FileSnapshot.t) (l : list FileSnapshot.t) : bool :=
  existsb (FileSnapshot.eqb fs) l.

Definition files_insert (fs : FileSnapshot.t) (l : list FileSnapshot.t)
    : list FileSnapshot.t :=
  if files_contains fs l then l else l ++ [fs].

(** [branches.erase(key)] on a [std::unordered_set<std::string>]; the
    elements that stay keep their order. *)
Definition erase (key : string) (branches : list string) : list string :=
  filter (λ b, b ≠ key) branches.

(** [std::unordered_map::insert]: a key that is present keeps its value. *)
Definition map_insert_new `{Countable K} {V} (k : K) (v : V) (t : gmap K V) : gmap K V :=
  match t !! k with
  | Some _ => t
  | None => <[ k := v ]> t
  end.

Definition endl : string := String (ascii_of_nat 10) "".

Section Downloader.

Context {E : Env}.

Definition setIdIndex (i : Z) (m : Machine E) : Machine E :=
  mkMachine i (fileHashes_ m) (files_ m) (world m) (trace m).

Definition setFileHashes (h : gmap (Hash E) Z) (m : Machine E) : Machine E :=
  mkMachine (idIndex_ m) h (files_ m) (world m) (trace m).

Definition setFiles (l : list FileSnapshot.t) (m : Machine E) : Machine E :=
  mkMachine (idIndex_ m) (fileHashes_ m) l (world m) (trace m).

Definition setWorld (w : World (G E)) (m : Machine E) : Machine E :=
  mkMachine (idIndex_ m) (fileHashes_ m) (files_ m) w (trace m).

Definition emit (e : Event) (m : Machine E) : Machine E :=
  mkMachine (idIndex_ m) (fileHashes_ m) (files_ m) (world m) (trace m ++ [e]).

Definition Log (msg : string) : Machine E → Machine E := emit (EvLog msg).
Definition Error (msg : string) : Machine E → Machine E := emit (EvError msg).
Definition Schedule (task : Project.t) : Machine E → Machine E :=
  emit (EvSchedule task).

Definition TempPath : string := OutputPath E ++ "/temp".
Definition StatsPath : string := OutputPath E ++ "/stats".
Definition ProjectsPath : string := OutputPath E ++ "/projects".
Definition FilesPath : string := OutputPath E ++ "/files".

(** *** [Downloader::FeedProjectsFrom]

    One turn of the loop over the rows; [line] is an [unsigned].  Neither
    [strtol] nor the constructor throws, so the [catch (...)] never runs
    and the two-field branch always reaches its [continue].  The end
    pointer handed to [strtol] is an uninitialised [char **]; the store
    through it is not part of this model. *)
Definition feedRow (filename : string) (st : Z * Machine E) (x : list string)
    : Z * Machine E :=
  let line := (st.1 + 1) mod 2 ^ 32 in
  let m := st.2 in
  match x with
  | [x0] =>
      let '(task, i) := Project.create x0 (idIndex_ m) in
      (line, Schedule task (setIdIndex i m))
  | [x0; x1] =>
      let '(task, i) :=
        Project.createWithId (casSpurious E) x0 (Strtol.strtol x1) (idIndex_ m) in
      (line, Schedule task (setIdIndex i m))
  | _ =>
      (line, Error (filename ++ ", line " ++ pretty line
                      ++ ": Invalid format of the project url input, skipping.") m)
  end.

Definition feedRows (filename : string) (rows : list (list string))
    (m : Machine E) : Z * Machine E :=
  fold_left (feedRow filename) rows (0, m).

Definition FeedProjectsFrom (filename : string) (m : Machine E) : Machine E :=
  (feedRows filename (CSVParser E filename (world m)) m).2.

(** [STR(FilesPath() << Settings::IdToPath(id))] and
    [STR(targetDir << "/" << id << ".raw")]. *)
Definition targetDirOf (id : Z) : string := FilesPath ++ IdToPath E id.
Definition blobFile (id : Z) : string := targetDirOf id ++ "/" ++ pretty id ++ ".raw".

(** *** [Downloader::getContentId]

    The result is [Some id] where the code executes [return i->second],
    and [None] where control runs off the end of the function body: after
    the blob is written there is no [return] statement, so the call yields
    no value. *)
Definition getContentId (text : string) (m : Machine E) : option Z * Machine E :=
  let h := Calculate E text in
  match fileHashes_ m !! h with
  | Some i => (Some i, m)
  | None =>
      let id := wrap64 (Z.of_nat (size (fileHashes_ m))) in
      let m := setFileHashes (map_insert_new h id (fileHashes_ m)) m in
      let targetDir := targetDirOf id in
      let m := emit (EvCreatePath targetDir)
                 (setWorld (createPathIfMissing targetDir (world m)) m) in
      let file := blobFile id in
      let m := emit (EvWrite file text) (setWorld (writeFile file text (world m)) m) in
      let m := if ClosesPathDir E id
               then emit (EvStdout ("done target dir " ++ targetDir ++ endl)) m
               else m in
      (None, m)
  end.

(** *** [Downloader::processFiles]

    The body of the innermost loop, for one history record. *)
Definition processHistory (p : Project.t) (m : Machine E) (fh : Git.FileHistory)
    : Machine E :=
  let fs := FileSnapshot.ofHistory fh in
  if files_contains fs (files_ m) then m
  else
    let r := Git_GetFileRevision E (Project.localPath p) fh (world m) in
    let m := emit (EvGetFileRevision (Project.localPath p) fh (bool_decide (is_Some r))) m in
    match r with
    | Some text =>
        let fs := FileSnapshot.setId (wrap64 (Z.of_nat (length (files_ m)))) fs in
        let '(cid, m) := getContentId text m in
        let fs := FileSnapshot.setContentId cid fs in
        setFiles (files_insert fs (files_ m)) m
    | None => m
    end.

(** The body of the outer loop, for one tracked file. *)
Definition processFile (st : Project.t * Machine E) (file : Git.FileInfo)
    : Project.t * Machine E :=
  let '(p, m) := st in
  let '(accepted, denied) := filePattern_check E (Git.fi_filename file) in
  if accepted then
    (p, fold_left (processHistory p)
          (Git_GetFileHistory E (Project.localPath p) file (world m)) m)
  else if denied then (Project.setHasDeniedFiles true p, m)
  else (p, m).

Definition processFiles (p : Project.t) (branchName : string) (m : Machine E)
    : Project.t * Machine E :=
  fold_left processFile (Git_GetFileInfo E (Project.localPath p) (world m)) (p, m).

(** *** [Downloader::processAllBranches]

    The inner [while (true)]: take branches off the set until one checks
    out.  [None] is the [return] on an empty set. *)
Fixpoint nextBranch (p : Project.t) (branches : list string) (m : Machine E)
    : option (string * list string) * Machine E :=
  match branches with
  | [] => (None, m)
  | current :: branches =>
      let '(ok, w) := Git_SetBranch E (Project.localPath p) current (world m) in
      let m := emit (EvSetBranch (Project.localPath p) current ok) (setWorld w m) in
      if ok then (Some (current, branches), m)
      else nextBranch p branches (Error ("Unable to checkout branch " ++ current) m)
  end.

(** The outer [while (true)].  Each turn takes at least one branch off the
    set; [fuel] bounds the number of turns and [None] means it ran out. *)
Fixpoint branchLoop (fuel : nat) (p : Project.t) (current : string)
    (branches : list string) (m : Machine E) : option (Project.t * Machine E) :=
  match fuel with
  | O => None
  | S fuel =>
      let branches := erase current branches in
      let m := Log ("Analyzing branch " ++ current) m in
      let '(p, m) := processFiles p current m in
      match nextBranch p branches m with
      | (None, m) => Some (p, m)
      | (Some (current, branches), m) => branchLoop fuel p current branches m
      end
  end.

Definition processAllBranches (fuel : nat) (p : Project.t) (m : Machine E)
    : option (Project.t * Machine E) :=
  let branches := Git_GetBranches E (Project.localPath p) (world m) in
  let current := Git_GetCurrentBranch E (Project.localPath p) (world m) in
  branchLoop fuel p current branches m.

(** *** [Downloader::download] *)
Definition download (p : Project.t) (m : Machine E) : outcome Project.t * Machine E :=
  let p := Project.setLocalPath (TempPath ++ "/" ++ pretty (Project.id p)) p in
  let m := if isDirectory (Project.localPath p) (world m)
           then emit (EvDeletePath (Project.localPath p))
                  (setWorld (deletePath (Project.localPath p) (world m)) m)
           else m in
  let '(ok, w) := Git_Clone E (Project.gitUrl p) (Project.localPath p) (world m) in
  let m := emit (EvClone (Project.gitUrl p) (Project.localPath p) ok) (setWorld w m) in
  if ok then
    (Returned p,
     Log (Project.show p ++ " successfully cloned to local path " ++ Project.localPath p) m)
  else (Thrown ("Unable to download project " ++ Project.gitUrl p), m).

(** *** [Downloader::deleteProject] *)
Definition deleteProject (p : Project.t) (m : Machine E) : Machine E :=
  let m := emit (EvDeletePath (Project.localPath p))
             (setWorld (deletePath (Project.localPath p) (world m)) m) in
  Log (Project.localPath p ++ " deleted.") m.

(** *** [Downloader::run]

    [task] is taken by reference; what it has become is handed back.
    Nothing in [run] catches what [download] throws. *)
Definition run (fuel : nat) (task : Project.t) (m : Machine E)
    : option (outcome Project.t * Machine E) :=
  let m := Log ("Processing task " ++ Project.show task) m in
  match download task m with
  | (Thrown what, m) => Some (Thrown what, m)
  | (Returned task, m) =>
      match processAllBranches fuel task m with
      | None => None
      | Some (task, m) => Some (Returned task, deleteProject task m)
      end
  end.

End Downloader.

Arguments TempPath E : clear implicits.
Arguments StatsPath E : clear implicits.
Arguments ProjectsPath E : clear implicits.
Arguments FilesPath E : clear implicits.
Arguments targetDirOf E id : clear implicits.
Arguments blobFile E id : clear implicits.

(** ** [getContentId] under several workers

    The body of [getContentId] takes no lock (its block carries the comment
    [TODO lock this]), so between any two of its statements another worker
    may run.  A worker inside the call is at one of the statements below,
    holding the locals assigned so far; [fileHashes_], the disk and the
    trace are shared. *)

Module Concurrent.
Section Concurrent.

Context {E : Env}.

Inductive Pc : Type :=
  | AtCalculate (text : string)
      (* Hash h = Hash::Calculate(text); *)
  | AtFind (text : string) (h : Hash E)
      (* auto i = fileHashes_.find(h); if (i != end()) return i->second; *)
  | AtSize (text : string) (h : Hash E)
      (* id = fileHashes_.size(); *)
  | AtInsert (text : string) (h : Hash E) (id : Z)
      (* fileHashes_.insert(std::pair<Hash, long>(h, id)); *)
  | AtCreatePath (text : string) (id : Z)
      (* targetDir = ...; createPathIfMissing(targetDir); *)
  | AtWrite (text : string) (id : Z)
      (* std::ofstream out(...); out << text; out.close(); *)
  | AtClosesPathDir (text : string) (id : Z)
      (* if (Settings::ClosesPathDir(id)) std::cout << ... *)
  | Finished (result : option Z).

(** One statement of one worker. *)
Definition step (pc : Pc) (m : Machine E) : Pc * Machine E :=
  match pc with
  | AtCalculate text => (AtFind text (Calculate E text), m)
  | AtFind text h =>
      match fileHashes_ m !! h with
      | Some i => (Finished (Some i), m)
      | None => (AtSize text h, m)
      end
  | AtSize text h => (AtInsert text h (wrap64 (Z.of_nat (size (fileHashes_ m)))), m)
  | AtInsert text h id =>
      (AtCreatePath text id, setFileHashes (map_insert_new h id (fileHashes_ m)) m)
  | AtCreatePath text id =>
      (AtWrite text id,
       emit (EvCreatePath (targetDirOf E id))
         (setWorld (createPathIfMissing (targetDirOf E id) (world m)) m))
  | AtWrite text id =>
      (AtClosesPathDir text id,
       emit (EvWrite (blobFile E id) text)
         (setWorld (writeFile (blobFile E id) text (world m)) m))
  | AtClosesPathDir text id =>
      (Finished None,
       if ClosesPathDir E id
       then emit (EvStdout ("done target dir " ++ targetDirOf E id ++ endl)) m
       else m)
  | Finished r => (Finished r, m)
  end.

(** Worker [i] executes its next statement. *)
Definition stepWorker (i : nat) (st : list Pc * Machine E) : list Pc * Machine E :=
  match st.1 !! i with
  | Some pc => let '(pc', m') := step pc st.2 in (<[ i := pc' ]> st.1, m')
  | None => st
  end.

(** A schedule names, turn by turn, the worker that moves. *)
Definition runSchedule (schedule : list nat) (st : list Pc * Machine E)
    : list Pc * Machine E :=
  fold_left (λ st i, stepWorker i st) schedule st.

(** A worker has been handed [id] as already registered. *)
Definition handed (id : Z) (pc : Pc) : Prop :=
  pc = Finished (Some id).

(** The bytes of [id] are on disk. *)
Definition written (text : string) (id : Z) (m : Machine E) : Prop :=
  files (world m) !! blobFile E id = Some text.

End Concurrent.
End Concurrent.

(** ** A small concrete world

    Three remotes: a repository, a fork of it that shares its commits, and
    a remote whose clone fails after the target directory has been made.
    The git layer's state records, for every clone, its remote and the
    branch checked out. *)

Module Demo.

Definition repoUrl : string := "https://x/y.git".
Definition forkUrl : string := "https://x/fork.git".
Definition goneUrl : string := "https://x/gone.git".

Definition GitState : Type := gmap string (string * string).

Definition Clone (url into : string) (w : World GitState) : bool * World GitState :=
  if decide (url = goneUrl)
  then (false, mkWorld ({[ into ]} ∪ dirs w) (files w) (git w))
  else (true, mkWorld ({[ into ]} ∪ dirs w) (files w)
                (<[ into := (url, "master") ]> (git w))).

Definition GetBranches (path : string) (w : World GitState) : list string :=
  match git w !! path with
  | Some _ => ["dev"; "master"; "broken"; "old"]
  | None => []
  end.

Definition GetCurrentBranch (path : string) (w : World GitState) : string :=
  match git w !! path with
  | Some (_, b) => b
  | None => ""
  end.

Definition SetBranch (path branch : string) (w : World GitState)
    : bool * World GitState :=
  match git w !! path with
  | Some (url, _) =>
      if decide (branch = "broken") then (false, w)
      else (true, mkWorld (dirs w) (files w) (<[ path := (url, branch) ]> (git w)))
  | None => (false, w)
  end.

Definition GetFileInfo (path : string) (w : World GitState) : list Git.FileInfo :=
  match git w !! path with
  | Some _ => [Git.mkFileInfo "src/a.js" 10; Git.mkFileInfo "lib/a.min.js" 11;
               Git.mkFileInfo "README" 10]
  | None => []
  end.

Definition c0 : Git.FileHistory := Git.mkFileHistory "c0" "src/a.js" 10.
Definition c1 : Git.FileHistory := Git.mkFileHistory "c1" "src/a.js" 20.
Definition c2 : Git.FileHistory := Git.mkFileHistory "c2" "src/a.js" 30.
Definition c3 : Git.FileHistory := Git.mkFileHistory "c3" "src/a.js" 40.

(** Newest first; [dev] is one commit ahead of [master], and in [c2] the
    file was deleted. *)
Definition GetFileHistory (path : string) (file : Git.FileInfo)
    (w : World GitState) : list Git.FileHistory :=
  match git w !! path with
  | Some (_, b) =>
      if decide (b = "dev") then [c3; c2; c1; c0] else [c2; c1; c0]
  | None => []
  end.

Definition GetFileRevision (path : string) (fh : Git.FileHistory)
    (w : World GitState) : option string :=
  if decide (Git.hash fh = "c2") then None
  else if decide (Git.hash fh = "c3") then Some "var a = 1;"
  else Some ("var a = 1; // " ++ Git.hash fh).

Definition check (filename : string) : bool * bool :=
  if decide (filename = "src/a.js") then (true, false)
  else if decide (filename = "lib/a.min.js") then (false, true)
  else (false, false).

(** The rows of the seed file [project_urls.csv]. *)
Definition seedRows : list (list string) :=
  [ ["https://x/y.git"];
    ["https://x/fork.git"; "7"];
    [""; ""; ""; ""];
    ["https://x/y.git"; "abc"];
    ["https://x/gone.git"] ].

Definition env : Env :=
  {| G := GitState;
     Hash := string;
     Calculate := λ text, text;
     OutputPath := "/data/ele";
     IdToPath := λ id, "/" ++ pretty (id / 1000);
     ClosesPathDir := λ id, bool_decide (id mod 1000 = 999);
     filePattern_check := check;
     CSVParser := λ filename _,
       if decide (filename = "project_urls.csv") then seedRows else [];
     Git_Clone := Clone;
     Git_GetBranches := GetBranches;
     Git_GetCurrentBranch := GetCurrentBranch;
     Git_SetBranch := SetBranch;
     Git_GetFileInfo := GetFileInfo;
     Git_GetFileHistory := GetFileHistory;
     Git_GetFileRevision := GetFileRevision;
     casSpurious := 2 |}.

(** The same world under a hash that keeps only the length of the text,
    so that different texts collide. *)
Definition lengthEnv : Env :=
  {| G := GitState;
     Hash := nat;
     Calculate := String.length;
     OutputPath := "/data/ele";
     IdToPath := λ id, "/" ++ pretty (id / 1000);
     ClosesPathDir := λ id, bool_decide (id mod 1000 = 999);
     filePattern_check := check;
     CSVParser := λ _ _, [];
     Git_Clone := Clone;
     Git_GetBranches := GetBranches;
     Git_GetCurrentBranch := GetCurrentBranch;
     Git_SetBranch := SetBranch;
     Git_GetFileInfo := GetFileInfo;
     Git_GetFileHistory := GetFileHistory;
     Git_GetFileRevision := GetFileRevision;
     casSpurious := 0 |}.

Definition lengthStart : Machine lengthEnv :=
  mkMachine 0 ∅ [] (mkWorld {[ "/data/ele/temp" ]} ∅ ∅) [].

(** The same world under a pattern list that denies every file. *)
Definition denyEnv : Env :=
  {| G := GitState;
     Hash := string;
     Calculate := λ text, text;
     OutputPath := "/data/ele";
     IdToPath := λ id, "/" ++ pretty (id / 1000);
     ClosesPathDir := λ id, bool_decide (id mod 1000 = 999);
     filePattern_check := λ _, (false, true);
     CSVParser := λ _ _, [];
     Git_Clone := Clone;
     Git_GetBranches := GetBranches;
     Git_GetCurrentBranch := GetCurrentBranch;
     Git_SetBranch := SetBranch;
     Git_GetFileInfo := GetFileInfo;
     Git_GetFileHistory := GetFileHistory;
     Git_GetFileRevision := GetFileRevision;
     casSpurious := 0 |}.

(** A clone of [repo] at [/data/ele/temp/0], under [denyEnv]. *)
Definition denyCloned : Machine denyEnv :=
  mkMachine 1 ∅ []
    (mkWorld {[ "/data/ele/temp/0" ]} ∅ {[ "/data/ele/temp/0" := (repoUrl, "master") ]}) [].

(** A freshly started program with the output directories in place. *)
Definition start : Machine env :=
  mkMachine 0 ∅ [] (mkWorld {[ "/data/ele/temp" ]} ∅ ∅) [].

Definition repo : Project.t := Project.mk 0 repoUrl "" None.
Definition fork : Project.t := Project.mk 1 forkUrl "" None.
Definition gone : Project.t := Project.mk 2 goneUrl "" None.

(** A worker that already holds one snapshot and one content on record,
    with its blob on disk. *)
Definition seeded : Machine env :=
  mkMachine 1 {[ "var a = 1; // c1" := 0 ]}
    [FileSnapshot.mk 0 "c1" "src/a.js" (Some 0) 20]
    (mkWorld {[ "/data/ele/temp" ]}
       {[ "/data/ele/files/0/0.raw" := "var a = 1; // c1" ]} ∅) [].

(** The clone of [repo], before its branches are walked. *)
Definition cloned : Machine env := (download repo start).2.
Definition clonedRepo : Project.t := Project.setLocalPath "/data/ele/temp/0" repo.

(** The machine a worker is left with after it has run [repo]. *)
Definition afterRepo : Machine env :=
  match run 8 repo start with
  | Some (_, m) => m
  | None => start
  end.

(** The machine the seeded worker is left with after it has run [repo]. *)
Definition afterSeeded : Machine env :=
  match run 8 repo seeded with
  | Some (_, m) => m
  | None => seeded
  end.

End Demo.

(** ** Reading a trace *)

(** The checkouts attempted, with how each went. *)
Definition checkouts (tr : list Event) : list (string * bool) :=
  omap (λ e, match e with EvSetBranch _ b ok => Some (b, ok) | _ => None end) tr.

(** What went to the log and to the error channel. *)
Definition reports (tr : list Event) : list Event :=
  omap (λ e, match e with EvLog _ | EvError _ => Some e | _ => None end) tr.

(** The revisions asked of the git layer. *)
Definition fetches (tr : list Event) : list Git.FileHistory :=
  omap (λ e, match e with EvGetFileRevision _ fh _ => Some fh | _ => None end) tr.

(** The blob files written. *)
Definition writes (tr : list Event) : list (string * string) :=
  omap (λ e, match e with EvWrite f text => Some (f, text) | _ => None end) tr.

(** The projects handed to the task queue. *)
Definition scheduled (tr : list Event) : list Project.t :=
  omap (λ e, match e with EvSchedule t => Some t | _ => None end) tr.



(** The (commit, path) pairs whose revision the git layer delivered. *)
Definition retrieved (tr : list Event) : list (string * string) :=
  omap (λ e, match e with
             | EvGetFileRevision _ fh true => Some (Git.hash fh, Git.filename fh)
             | _ => None
             end) tr.

(** From [m] to [m'] the trace only grows, and every snapshot that is new
    in [files_] has the identity of a revision delivered in between. *)
Definition recorded {E : Env} (m m' : Machine E) : Prop :=
  ∃ new, trace m' = (trace m ++ new)%list ∧
    ∀ fs, fs ∈ files_ m' → fs ∈ files_ m ∨ FileSnapshot.key fs ∈ retrieved new.

(** ** What the tables are expected to look like *)

(** Content ids on record lie below the number of entries. *)
Definition ids_dense {E : Env} (t : gmap (Hash E) Z) : Prop :=
  ∀ h i, t !! h = Some i → 0 <= i < Z.of_nat (size t).

(** No two hashes on record share a content id. *)
Definition ids_unique {E : Env} (t : gmap (Hash E) Z) : Prop :=
  ∀ h1 h2 i, t !! h1 = Some i → t !! h2 = Some i → h1 = h2.

(** Both, for a table small enough that [size()] still fits a [long]. *)
Definition ids_ok {E : Env} (t : gmap (Hash E) Z) : Prop :=
  Z.of_nat (size t) <= LONG_MAX + 1 → ids_dense t ∧ ids_unique t.

(** No two snapshots of the set have the same (commit, path), and each
    carries as [id_] the size the set had when it was inserted. *)
Definition snapshots_ok (l : list FileSnapshot.t) : Prop :=
  NoDup (FileSnapshot.key <$> l) ∧
  ∀ (i : nat) fs, l !! i = Some fs → FileSnapshot.id_ fs = wrap64 (Z.of_nat i).

(** Every hash on record has, in the blob file of its id, bytes that hash
    to it. *)
Definition backed {E : Env} (m : Machine E) : Prop :=
  ∀ h i, fileHashes_ m !! h = Some i →
    ∃ text, files (world m) !! blobFile E i = Some text ∧ Calculate E text = h.

(** The second fields of the two-field rows, as [strtol] reads them. *)
Definition explicitIds (rows : list (list string)) : list Z :=
  omap (λ x, match x with [_; x1] => Some (Strtol.strtol x1) | _ => None end) rows.

(** What [FeedProjectsFrom] puts on the error channel for row number [i]
    (counted from 0) of [filename], if anything. *)
Definition rowReport (filename : string) (i : nat) (x : list string) : list Event :=
  match x with
  | [_] | [_; _] => []
  | _ => [EvError (filename ++ ", line " ++ pretty (Z.of_nat (S i) mod 2 ^ 32)
                     ++ ": Invalid format of the project url input, skipping.")]
  end.

(** How many projects a row makes [FeedProjectsFrom] schedule. *)
Definition rowScheduled (x : list string) : nat :=
  match x with
  | [_] | [_; _] => 1
  | _ => 0
  end.

(** The snapshot with commit and path exchanged. *)
Definition swapped (f : FileSnapshot.t) : FileSnapshot.t :=
  FileSnapshot.mk (FileSnapshot.id_ f) (FileSnapshot.relPath_ f)
    (FileSnapshot.commit_ f) (FileSnapshot.contentId_ f) (FileSnapshot.time_ f).





(** * Properties *)

(** ** Integers *)

Lemma wrap64_id z : is_long z → wrap64 z = z.
Proof.
  unfold is_long, LONG_MIN, LONG_MAX, wrap64. intros Hz.
  rewrite Z.mod_small; lia.
Qed.

Lemma wrap64_is_long z : is_long (wrap64 z).
Proof.
  unfold is_long, LONG_MIN, LONG_MAX, wrap64.
  pose proof (Z.mod_pos_bound (z + 2 ^ 63) (2 ^ 64)). lia.
Qed.

(** ** Project ids *)

(** The number of spurious failures does not show in the result. *)
Lemma raiseIdIndex_spurious n id k :
  Project.raiseIdIndex n id k = Project.raiseIdIndex 0 id k.
Proof.
  induction n as [|n IH]; [reflexivity|].
  simpl. destruct (decide (k <= id)) as [Hle|Hgt]; [|reflexivity].
  rewrite IH. simpl. destruct (decide (k <= id)); [reflexivity | contradiction].
Qed.

Lemma raiseIdIndex_le n id k :
  k <= id → Project.raiseIdIndex n id k = wrap64 (id + 1).
Proof.
  intros Hle. rewrite raiseIdIndex_spurious. simpl.
  destruct (decide (k <= id)); [reflexivity | lia].
Qed.

Lemma raiseIdIndex_gt n id k :
  id < k → Project.raiseIdIndex n id k = k.
Proof.
  intros Hlt. rewrite raiseIdIndex_spurious. simpl.
  destruct (decide (k <= id)); [lia | reflexivity].
Qed.

(** C6, at the largest [long]: with the allocator at 0, constructing a
    project with the explicit id [LONG_MAX] leaves the allocator at
    [LONG_MIN], so the next automatic id is [LONG_MIN] and not
    [LONG_MAX + 1]. *)
Lemma createWithId_LONG_MAX_wraps :
  let i := (Project.createWithId 0 "u" LONG_MAX 0).2 in
  Project.id (Project.create "v" i).1 = LONG_MIN ∧
  Project.id (Project.create "v" i).1 ≠ LONG_MAX + 1.
Proof. vm_compute. split; [reflexivity | discriminate]. Qed.

(** C6, amended: for every allocator value [k] and every explicit id [m]
    below the largest [long], the constructed project has id [m]; when
    [m >= k] the allocator becomes [m + 1] and the next automatic id is
    [m + 1]; when [m < k] the allocator stays [k] and the next automatic id
    is [k]. *)
Theorem createWithId_floor (spurious : nat) (url url' : string) (k m : Z) :
  LONG_MIN <= m < LONG_MAX →
  let '(p, i) := Project.createWithId spurious url m k in
  Project.id p = m ∧
  (k <= m → i = m + 1 ∧ Project.id (Project.create url' i).1 = m + 1) ∧
  (m < k → i = k ∧ Project.id (Project.create url' i).1 = k).
Proof.
  intros Hm. unfold Project.createWithId, Project.create, Project.id. simpl.
  split; [reflexivity|]. split; intros Hk.
  - rewrite raiseIdIndex_le by exact Hk.
    rewrite wrap64_id by (unfold is_long; lia). auto.
  - rewrite raiseIdIndex_gt by exact Hk. auto.
Qed.

Lemma createWithId_floor_witness :
  LONG_MIN <= 7 < LONG_MAX ∧
  let '(p, i) := Project.createWithId 2 "u" 7 3 in
  Project.id p = 7 ∧
  (3 <= 7 → i = 7 + 1 ∧ Project.id (Project.create "v" i).1 = 7 + 1) ∧
  (7 < 3 → i = 3 ∧ Project.id (Project.create "v" i).1 = 3).
Proof.
  split; [unfold LONG_MIN, LONG_MAX; lia|].
  apply (createWithId_floor 2 "u" "v" 3 7). unfold LONG_MIN, LONG_MAX; lia.
Defined.

(** ** File snapshots *)

Lemma eqb_key a b : FileSnapshot.eqb a b = true ↔ FileSnapshot.key a = FileSnapshot.key b.
Proof.
  unfold FileSnapshot.eqb, FileSnapshot.key.
  rewrite andb_true_iff, !bool_decide_eq_true.
  split; [intros [-> ->]; reflexivity | intros [= -> ->]; auto].
Qed.

(** C10: two snapshots that [operator ==] calls equal have the same
    [std::hash<FileSnapshot>], whatever the string hash is. *)
Theorem hash_respects_eqb (hash_string : string → Z) (a b : FileSnapshot.t) :
  FileSnapshot.eqb a b = true →
  FileSnapshot.hash hash_string a = FileSnapshot.hash hash_string b.
Proof.
  intros Heq. apply eqb_key in Heq. unfold FileSnapshot.key in Heq.
  unfold FileSnapshot.hash, FileSnapshot.commit, FileSnapshot.relPath.
  congruence.
Qed.

Lemma hash_respects_eqb_witness :
  let a := FileSnapshot.mk 0 "c1" "src/a.js" (Some 4) 20 in
  let b := FileSnapshot.mk (-1) "c1" "src/a.js" None 21 in
  let h := λ s : string, Z.of_nat (String.length s) * 2 ^ 63 in
  FileSnapshot.eqb a b = true ∧ FileSnapshot.hash h a = FileSnapshot.hash h b.
Proof.
  split; [reflexivity|].
  apply (hash_respects_eqb _ (FileSnapshot.mk 0 "c1" "src/a.js" (Some 4) 20)
           (FileSnapshot.mk (-1) "c1" "src/a.js" None 21)).
  reflexivity.
Defined.

(** ** The content store *)

Section ContentStore.

Context {E : Env}.
Implicit Types (m : Machine E) (text : string).

Lemma trace_emit (e : Event) m : trace (emit e m) = (trace m ++ [e])%list.
Proof. reflexivity. Qed.

Lemma map_insert_new_fresh `{Countable K} {V} (k : K) (v : V) (t : gmap K V) :
  t !! k = None → map_insert_new k v t = <[ k := v ]> t.
Proof. intros Hk. unfold map_insert_new. rewrite Hk. reflexivity. Qed.

(** A hit yields the id on record and touches nothing. *)
Lemma getContentId_hit text m i :
  fileHashes_ m !! Calculate E text = Some i →
  getContentId text m = (Some i, m).
Proof. intros Hhit. unfold getContentId. rewrite Hhit. reflexivity. Qed.

(** What a miss leaves behind: the hash on record under the next dense id,
    the blob on disk, one write in the trace. *)
Lemma getContentId_miss text m :
  fileHashes_ m !! Calculate E text = None →
  let id := wrap64 (Z.of_nat (size (fileHashes_ m))) in
  let m' := (getContentId text m).2 in
  (getContentId text m).1 = None ∧
  fileHashes_ m' = <[ Calculate E text := id ]> (fileHashes_ m) ∧
  files (world m') !! blobFile E id = Some text ∧
  writes (trace m') = (writes (trace m) ++ [(blobFile E id, text)])%list ∧
  files_ m' = files_ m.
Proof.
  intros Hmiss. unfold getContentId. rewrite Hmiss.
  rewrite (map_insert_new_fresh _ _ _ Hmiss).
  destruct (ClosesPathDir E _); simpl;
    (split; [reflexivity|]; split; [reflexivity|];
     split; [apply lookup_insert_eq|]; split; [|reflexivity]);
    unfold writes; rewrite !omap_app; simpl; rewrite ?app_nil_r; reflexivity.
Qed.

(** C1, on the code: when the hash of [text] is not on record,
    [getContentId] registers it under the next dense id and writes the
    blob of that id, and then control leaves the function without a
    [return]: the call yields no id, in particular not the one it has just
    allocated. *)
Theorem getContentId_miss_yields_nothing text m :
  fileHashes_ m !! Calculate E text = None →
  let id := wrap64 (Z.of_nat (size (fileHashes_ m))) in
  let '(r, m') := getContentId text m in
  fileHashes_ m' !! Calculate E text = Some id ∧
  files (world m') !! blobFile E id = Some text ∧
  r = None ∧ r ≠ Some id.
Proof.
  intros Hmiss id.
  pose proof (getContentId_miss text m Hmiss) as (Hr & Htab & Hfile & _).
  destruct (getContentId text m) as [r m']. simpl in *. subst r.
  rewrite Htab, lookup_insert_eq. repeat split; [exact Hfile | discriminate].
Qed.

(** C2, on the code: of two successive submissions of the same bytes whose
    hash was not on record, the first yields no id and the second yields
    the id the first one registered, so the two results differ; the second
    changes nothing (no write, same table), and the blob was written once. *)
Theorem getContentId_twice text m :
  fileHashes_ m !! Calculate E text = None →
  let id := wrap64 (Z.of_nat (size (fileHashes_ m))) in
  let '(r1, m1) := getContentId text m in
  let '(r2, m2) := getContentId text m1 in
  r1 = None ∧ r2 = Some id ∧ r1 ≠ r2 ∧ m2 = m1 ∧
  writes (trace m2) = (writes (trace m) ++ [(blobFile E id, text)])%list.
Proof.
  intros Hmiss id.
  pose proof (getContentId_miss text m Hmiss) as (Hr1 & Htab & _ & Hwr & _).
  destruct (getContentId text m) as [r1 m1]. simpl in *. subst r1.
  assert (Hhit : fileHashes_ m1 !! Calculate E text = Some id)
    by (rewrite Htab; apply lookup_insert_eq).
  rewrite (getContentId_hit _ _ _ Hhit).
  repeat split; [discriminate | exact Hwr].
Qed.

(** ** The history loop *)

(** A record whose snapshot is already in [files_] is passed over, whatever
    project is being processed. *)
Lemma processHistory_seen (p : Project.t) m (fh : Git.FileHistory) :
  files_contains (FileSnapshot.ofHistory fh) (files_ m) = true →
  processHistory p m fh = m.
Proof. intros Hin. unfold processHistory. rewrite Hin. reflexivity. Qed.

Lemma getContentId_files text m : files_ (getContentId text m).2 = files_ m.
Proof.
  unfold getContentId. destruct (fileHashes_ m !! _); [reflexivity|].
  destruct (ClosesPathDir E _); reflexivity.
Qed.

Lemma getContentId_registers text m :
  is_Some (fileHashes_ (getContentId text m).2 !! Calculate E text).
Proof.
  destruct (fileHashes_ m !! Calculate E text) as [i|] eqn:Hl.
  - rewrite (getContentId_hit _ _ _ Hl). simpl. eauto.
  - destruct (getContentId_miss text m Hl) as (_ & -> & _).
    rewrite lookup_insert_eq. eauto.
Qed.

(** C8: when the git layer reports the revision of a history record
    absent, [processHistory] leaves the snapshot set, the hash table and
    the disk as they were and writes nothing; and whenever it does change
    the snapshot set, the revision was retrieved and its hash is on record
    in the store. *)
Theorem processHistory_absent_or_registered (p : Project.t) m (fh : Git.FileHistory) :
  let r := Git_GetFileRevision E (Project.localPath p) fh (world m) in
  let m' := processHistory p m fh in
  (r = None →
     files_ m' = files_ m ∧ fileHashes_ m' = fileHashes_ m ∧
     world m' = world m ∧ writes (trace m') = writes (trace m)) ∧
  (files_ m' ≠ files_ m →
     ∃ text, r = Some text ∧ is_Some (fileHashes_ m' !! Calculate E text)).
Proof.
  intros r m'. subst r m'. unfold processHistory.
  destruct (files_contains _ (files_ m)) eqn:Hseen.
  { split; [auto | intros []; reflexivity]. }
  destruct (Git_GetFileRevision E _ fh (world m)) as [text|] eqn:Hr.
  - split; [discriminate|]. intros _. exists text. split; [reflexivity|].
    set (m0 := emit _ m).
    pose proof (getContentId_registers text m0) as Hreg.
    destruct (getContentId text m0) as [cid m1]. exact Hreg.
  - split; [|intros []; reflexivity]. intros _. simpl.
    repeat split. unfold writes. rewrite omap_app. simpl. apply app_nil_r.
Qed.

Lemma retrieved_app (a b : list Event) :
  retrieved (a ++ b) = (retrieved a ++ retrieved b)%list.
Proof. apply omap_app. Qed.

Lemma recorded_refl m : recorded m m.
Proof. exists []. rewrite app_nil_r. auto. Qed.

Lemma recorded_trans m1 m2 m3 : recorded m1 m2 → recorded m2 m3 → recorded m1 m3.
Proof.
  intros (n1 & H1 & Hf1) (n2 & H2 & Hf2).
  exists (n1 ++ n2)%list. rewrite H2, H1, <- app_assoc. split; [reflexivity|].
  intros fs Hfs. rewrite retrieved_app, elem_of_app.
  destruct (Hf2 fs Hfs) as [Hin|Hin]; [|auto].
  destruct (Hf1 fs Hin); auto.
Qed.

Lemma getContentId_trace text m :
  ∃ new, trace (getContentId text m).2 = (trace m ++ new)%list ∧ retrieved new = [].
Proof.
  unfold getContentId. destruct (fileHashes_ m !! _).
  - exists []. rewrite app_nil_r. auto.
  - destruct (ClosesPathDir E _); simpl; rewrite <- ?app_assoc; eauto.
Qed.

Lemma processHistory_recorded (p : Project.t) m (fh : Git.FileHistory) :
  recorded m (processHistory p m fh).
Proof.
  unfold processHistory. destruct (files_contains _ _); [apply recorded_refl|].
  destruct (Git_GetFileRevision E _ fh (world m)) as [text|].
  - set (m0 := emit _ m).
    destruct (getContentId_trace text m0) as (new & Htr & Hnew).
    pose proof (getContentId_files text m0) as Hfiles.
    destruct (getContentId text m0) as [cid m1]. simpl in *.
    exists (EvGetFileRevision (Project.localPath p) fh true :: new). split.
    + change (trace (setFiles ?l ?x)) with (trace x).
      rewrite Htr, <- app_assoc. reflexivity.
    + change (files_ (setFiles ?l ?x)) with l.
      intros fs. rewrite Hfiles. unfold files_insert.
      destruct (files_contains _ _); [auto|].
      rewrite elem_of_app, list_elem_of_singleton. intros [Hin | ->]; [auto|].
      right. simpl. left.
  - exists [EvGetFileRevision (Project.localPath p) fh false]. simpl. auto.
Qed.

(** Over a whole branch: whatever [processFiles] adds to [files_] has the
    identity of a revision that was delivered during the call. *)
Lemma processFiles_recorded (p : Project.t) (branchName : string) m :
  recorded m (processFiles p branchName m).2.
Proof.
  unfold processFiles. generalize (Git_GetFileInfo E (Project.localPath p) (world m)).
  intros l. revert p m. induction l as [|file l IH]; intros p m; cbn [fold_left].
  - apply recorded_refl.
  - assert (H1 : recorded m (processFile (p, m) file).2).
    { unfold processFile. destruct (filePattern_check E _) as [[] []]; simpl;
        try apply recorded_refl.
      all: generalize (Git_GetFileHistory E (Project.localPath p) file (world m));
        intros h; revert m; induction h as [|fh h IHh]; intros m; simpl;
        [apply recorded_refl
        |eapply recorded_trans; [apply processHistory_recorded | apply IHh]]. }
    destruct (processFile (p, m) file) as [p1 m1]. simpl in H1.
    eapply recorded_trans; [exact H1 | apply IH].
Qed.

End ContentStore.

Lemma getContentId_miss_yields_nothing_witness :
  fileHashes_ Demo.start !! Calculate Demo.env "var a = 1;" = None ∧
  let '(r, m') := getContentId "var a = 1;" Demo.start in
  fileHashes_ m' !! Calculate Demo.env "var a = 1;" = Some 0 ∧
  files (world m') !! blobFile Demo.env 0 = Some "var a = 1;" ∧
  r = None ∧ r ≠ Some 0.
Proof.
  split; [reflexivity|].
  exact (getContentId_miss_yields_nothing (E := Demo.env) "var a = 1;" Demo.start eq_refl).
Defined.

Lemma getContentId_twice_witness :
  fileHashes_ Demo.start !! Calculate Demo.env "var a = 1;" = None ∧
  let '(r1, m1) := getContentId "var a = 1;" Demo.start in
  let '(r2, m2) := getContentId "var a = 1;" m1 in
  r1 = None ∧ r2 = Some 0 ∧ r1 ≠ r2 ∧ m2 = m1 ∧
  writes (trace m2) = [("/data/ele/files/0/0.raw", "var a = 1;")].
Proof.
  split; [reflexivity|].
  exact (getContentId_twice (E := Demo.env) "var a = 1;" Demo.start eq_refl).
Defined.

Lemma processHistory_absent_or_registered_witness :
  Git_GetFileRevision Demo.env (Project.localPath Demo.repo) Demo.c2
    (world Demo.start) = None ∧
  let m' := processHistory Demo.repo Demo.start Demo.c2 in
  files_ m' = files_ Demo.start ∧ fileHashes_ m' = fileHashes_ Demo.start ∧
  world m' = world Demo.start ∧ writes (trace m') = writes (trace Demo.start).
Proof.
  split; [reflexivity|].
  apply (proj1 (processHistory_absent_or_registered (E := Demo.env)
                  Demo.repo Demo.start Demo.c2)).
  reflexivity.
Defined.

(** ** Seed intake *)

Section Seeds.

Context {E : Env}.
Implicit Types (m : Machine E) (filename : string).

(** A row with one field schedules a project under the next automatic id. *)
Lemma feedRow_one_field filename (line : Z) m (x0 : string) :
  let m' := (feedRow filename (line, m) [x0]).2 in
  trace m' = (trace m ++ [EvSchedule (Project.mk (idIndex_ m) x0 "" None)])%list ∧
  idIndex_ m' = wrap64 (idIndex_ m + 1).
Proof. split; reflexivity. Qed.

(** A row with two fields schedules a project under whatever [strtol] makes
    of the second field. *)
Lemma feedRow_two_fields filename (line : Z) m (x0 x1 : string) :
  let m' := (feedRow filename (line, m) [x0; x1]).2 in
  trace m' = (trace m ++ [EvSchedule (Project.mk (Strtol.strtol x1) x0 "" None)])%list.
Proof. reflexivity. Qed.

(** A row with any other number of fields is reported with the file name
    and the line number, and nothing is scheduled for it. *)
Lemma feedRow_bad_count filename (line : Z) m (x : list string) :
  length x ≠ 1%nat → length x ≠ 2%nat →
  let '(line', m') := feedRow filename (line, m) x in
  line' = (line + 1) mod 2 ^ 32 ∧
  trace m' = (trace m ++ [EvError (filename ++ ", line " ++ pretty line'
              ++ ": Invalid format of the project url input, skipping.")])%list ∧
  idIndex_ m' = idIndex_ m.
Proof.
  intros H1 H2. destruct x as [|x0 [|x1 [|x2 x]]]; simpl in *;
    try congruence; repeat split.
Qed.

(** Intake goes on after any row. *)
Lemma feedRows_snoc filename (rows : list (list string)) (x : list string) m :
  feedRows filename (rows ++ [x]) m = feedRow filename (feedRows filename rows m) x.
Proof. unfold feedRows. rewrite fold_left_app. reflexivity. Qed.

(** C4, on the code: the seed line ["https://x/y.git,abc"], two fields of
    which the second is no decimal integer, is scheduled as a project with
    id 0, and nothing is reported for it. *)
Theorem feedRows_non_numeric_id filename m :
  let m' := (feedRows filename [["https://x/y.git"; "abc"]] m).2 in
  scheduled (trace m') =
    (scheduled (trace m) ++ [Project.mk 0 "https://x/y.git" "" None])%list ∧
  reports (trace m') = reports (trace m).
Proof.
  simpl. unfold scheduled, reports. rewrite !omap_app. simpl.
  rewrite app_nil_r. split; reflexivity.
Qed.

End Seeds.

Example strtol_examples :
  Strtol.strtol "42" = 42 ∧ Strtol.strtol "  -17x" = -17 ∧
  Strtol.strtol "abc" = 0 ∧ Strtol.strtol "" = 0 ∧
  Strtol.strtol "9223372036854775808" = LONG_MAX ∧
  Strtol.strtol "-99999999999999999999" = LONG_MIN.
Proof. vm_compute. repeat split; reflexivity. Qed.

(** The demo seed file, taken in: five rows, four projects scheduled (the
    row with the non-numeric id among them, under id 0), one report, for
    line 3. *)
Example demo_intake :
  let m' := FeedProjectsFrom "project_urls.csv" Demo.start in
  Project.id <$> scheduled (trace m') = [0; 7; 0; 8] ∧
  reports (trace m') =
    [EvError "project_urls.csv, line 3: Invalid format of the project url input, skipping."] ∧
  idIndex_ m' = 9.
Proof. vm_compute. repeat split; reflexivity. Qed.

(** An explicit id too large for a [long] is read as [LONG_MAX], and the
    project after it gets [LONG_MIN]. *)
Example intake_LONG_MAX :
  let m' := (feedRows "f" [["u"; "9223372036854775808"]; ["v"]] Demo.start).2 in
  Project.id <$> scheduled (trace m') = [LONG_MAX; LONG_MIN].
Proof. vm_compute. reflexivity. Qed.

(** ** Branch traversal *)

Section Branches.

Context {E : Env}.
Implicit Types (m : Machine E) (p : Project.t).


Lemma reports_app (a b : list Event) :
  reports (a ++ b) = (reports a ++ reports b)%list.
Proof. apply omap_app. Qed.



























End Branches.


(** The traversal of the demo repository, evaluated: [master] is checked out
    at clone time and analysed first; [dev] and [old] check out and are
    analysed; [broken] does not and is reported, after which [old] is still
    taken. *)
Example demo_traversal :
  match processAllBranches 5 Demo.clonedRepo Demo.cloned with
  | Some (_, m') =>
      let new := drop (length (trace Demo.cloned)) (trace m') in
      checkouts new = [("dev", true); ("broken", false); ("old", true)] ∧
      reports new = [EvLog "Analyzing branch master"; EvLog "Analyzing branch dev";
                     EvError "Unable to checkout branch broken";
                     EvLog "Analyzing branch old"]
  | None => False
  end.
Proof. vm_compute. split; reflexivity. Qed.

(** The same traversal, with the revisions asked for set beside the
    checkouts: [master] is processed before any checkout; between the
    failed checkout of [broken] and the checkout of [old] nothing is asked
    for. *)
Example demo_traversal_fetches :
  match processAllBranches 5 Demo.clonedRepo Demo.cloned with
  | Some (_, m') =>
      omap (λ e, match e with
                 | EvSetBranch _ b ok => Some (b, ok)
                 | EvGetFileRevision _ fh ok => Some (Git.hash fh, ok)
                 | _ => None
                 end) (drop (length (trace Demo.cloned)) (trace m'))
      = [("c2", false); ("c1", true); ("c0", true);
         ("dev", true); ("c3", true); ("c2", false);
         ("broken", false);
         ("old", true); ("c2", false)]
  | None => False
  end.
Proof. vm_compute. reflexivity. Qed.

(** ** A project's run *)

Section Run.

Context {E : Env}.
Implicit Types (m : Machine E) (task : Project.t).

Lemma beneath_self (path : string) : beneath path path = true.
Proof. unfold beneath. rewrite bool_decide_eq_true_2; reflexivity. Qed.

Lemma isDirectory_deletePath {G} (path : string) (w : World G) :
  isDirectory path (deletePath path w) = false.
Proof.
  unfold isDirectory, deletePath. simpl. apply bool_decide_eq_false.
  rewrite elem_of_filter. intros [Hb _]. rewrite beneath_self in Hb. discriminate.
Qed.

(** When [run] returns, the workspace is gone. *)
Lemma run_returned_workspace_gone (fuel : nat) task m task' m' :
  run fuel task m = Some (Returned task', m') →
  isDirectory (Project.localPath task') (world m') = false.
Proof.
  unfold run. destruct (download task _) as [[task1|what] m1]; [|discriminate].
  destruct (processAllBranches fuel task1 m1) as [[task2 m2]|]; [|discriminate].
  intros [= <- <-]. apply isDirectory_deletePath.
Qed.

(** When the clone fails, [run] ends by the exception with the world as the
    failed clone left it: [deleteProject] is not reached. *)
Lemma run_clone_failure (fuel : nat) task m :
  let path := TempPath E ++ "/" ++ pretty (Project.id task) in
  let m0 := Log ("Processing task " ++ Project.show task) m in
  let w0 := if isDirectory path (world m0) then deletePath path (world m0)
            else world m0 in
  ∀ w, Git_Clone E (Project.gitUrl task) path w0 = (false, w) →
  ∃ what m', run fuel task m = Some (Thrown what, m') ∧ world m' = w.
Proof.
  intros path m0 w0 w Hclone. unfold run, download. fold m0.
  change (Project.localPath (Project.setLocalPath ?x task)) with x.
  change (Project.gitUrl (Project.setLocalPath ?x task)) with (Project.gitUrl task).
  fold path. destruct (isDirectory path (world m0)); simpl;
    subst w0; simpl in Hclone; rewrite Hclone; eauto.
Qed.

End Run.

(** C5, on the code: the clone of the demo remote [gone] fails after the
    target directory was made; [run] ends by the exception [download]
    throws, and the workspace [<temp>/2] is still a directory afterwards. *)
Theorem run_clone_failure_leaves_workspace :
  match run 5 Demo.gone Demo.start with
  | Some (Thrown what, m') =>
      what = "Unable to download project https://x/gone.git" ∧
      isDirectory (TempPath Demo.env ++ "/2") (world m') = true
  | _ => False
  end.
Proof. vm_compute. split; reflexivity. Qed.

(** C3, on the code: a worker that has run the demo repository and then
    runs its fork — another project, with the same commits — finds every
    (commit, path) of the fork in its [files_] already: the second run
    fetches only the revision that is absent (never recorded), stores
    nothing and adds no snapshot.  The same run on a worker whose [files_]
    is empty fetches every revision and records three snapshots. *)
Theorem run_fork_after_repo_suppressed :
  match run 5 Demo.fork Demo.afterRepo,
        run 5 Demo.fork (setFiles [] Demo.afterRepo) with
  | Some (Returned _, m'), Some (Returned _, m'') =>
      let new := drop (length (trace Demo.afterRepo)) (trace m') in
      let new' := drop (length (trace Demo.afterRepo)) (trace m'') in
      files_ m' = files_ Demo.afterRepo ∧
      fetches new = [Demo.c2; Demo.c2; Demo.c2] ∧
      fetches new' = [Demo.c2; Demo.c1; Demo.c0; Demo.c3; Demo.c2; Demo.c2] ∧
      FileSnapshot.key <$> files_ m'' =
        [("c1", "src/a.js"); ("c0", "src/a.js"); ("c3", "src/a.js")]
  | _, _ => False
  end.
Proof. vm_compute. repeat split; reflexivity. Qed.

(** ** Several workers in [getContentId] *)

Section Interleaving.

Context {E : Env}.
Import Concurrent.

(** A worker that runs alone does what the sequential [getContentId] does. *)
Lemma solo_getContentId (text : string) (m : Machine E) :
  runSchedule (replicate 7 0%nat) ([AtCalculate text], m)
  = ([Finished (getContentId text m).1], (getContentId text m).2).
Proof.
  unfold runSchedule, getContentId. simpl. unfold stepWorker. simpl.
  destruct (fileHashes_ m !! Calculate E text); reflexivity.
Qed.

(** C9, on the code: two workers submit the same bytes, whose hash is not
    on record.  The first runs up to and including the insertion into
    [fileHashes_]; then the second looks the hash up, finds it, and is
    handed the id — while the blob of that id is not on disk, the first
    worker not having reached its write. *)
Theorem handed_before_written (text : string) (m : Machine E) :
  let id := wrap64 (Z.of_nat (size (fileHashes_ m))) in
  fileHashes_ m !! Calculate E text = None →
  files (world m) !! blobFile E id = None →
  let '(pcs, m') :=
    runSchedule [0; 0; 0; 0; 1; 1]%nat ([AtCalculate text; AtCalculate text], m) in
  pcs !! 0%nat = Some (AtCreatePath text id) ∧
  (∃ pc, pcs !! 1%nat = Some pc ∧ handed id pc) ∧
  ¬ written text id m'.
Proof.
  intros id Hmiss Hfile. unfold runSchedule. simpl. unfold stepWorker. simpl.
  rewrite Hmiss. simpl. rewrite (map_insert_new_fresh _ _ _ Hmiss).
  rewrite lookup_insert_eq. simpl. split; [reflexivity|]. split.
  - eexists. split; reflexivity.
  - unfold written. simpl. fold id. rewrite Hfile. discriminate.
Qed.

End Interleaving.

Lemma handed_before_written_witness :
  fileHashes_ Demo.start !! Calculate Demo.env "var a = 1;" = None ∧
  files (world Demo.start) !! blobFile Demo.env 0 = None ∧
  let '(pcs, m') :=
    Concurrent.runSchedule [0; 0; 0; 0; 1; 1]%nat
      ([Concurrent.AtCalculate "var a = 1;"; Concurrent.AtCalculate "var a = 1;"],
       Demo.start) in
  pcs !! 0%nat = Some (Concurrent.AtCreatePath "var a = 1;" 0) ∧
  (∃ pc, pcs !! 1%nat = Some pc ∧ Concurrent.handed 0 pc) ∧
  ¬ Concurrent.written "var a = 1;" 0 m'.
Proof.
  split; [reflexivity|]. split; [reflexivity|].
  exact (handed_before_written (E := Demo.env) "var a = 1;" Demo.start eq_refl eq_refl).
Defined.

(** ** What a run keeps

    [run] touches [files_] and [fileHashes_] only inside the history loop:
    whatever one turn of that loop keeps, the whole run keeps. *)

Section Kept.

Context {E : Env}.
Variable P : list FileSnapshot.t → gmap (Hash E) Z → Prop.
Hypothesis turn : ∀ (p : Project.t) (m : Machine E) (fh : Git.FileHistory),
  P (files_ m) (fileHashes_ m) →
  P (files_ (processHistory p m fh)) (fileHashes_ (processHistory p m fh)).

Lemma history_kept (p : Project.t) (h : list Git.FileHistory) (m : Machine E) :
  P (files_ m) (fileHashes_ m) →
  P (files_ (fold_left (processHistory p) h m))
    (fileHashes_ (fold_left (processHistory p) h m)).
Proof.
  revert m. induction h as [|fh h IH]; intros m Hm; simpl; [exact Hm|].
  apply IH, turn, Hm.
Qed.

Lemma processFile_kept (p : Project.t) (m : Machine E) (file : Git.FileInfo) :
  P (files_ m) (fileHashes_ m) →
  P (files_ (processFile (p, m) file).2) (fileHashes_ (processFile (p, m) file).2).
Proof.
  intros Hm. unfold processFile.
  destruct (filePattern_check E _) as [[] []]; simpl;
    try exact Hm; apply history_kept, Hm.
Qed.

Lemma processFiles_kept (p : Project.t) (b : string) (m : Machine E) :
  P (files_ m) (fileHashes_ m) →
  P (files_ (processFiles p b m).2) (fileHashes_ (processFiles p b m).2).
Proof.
  unfold processFiles. generalize (Git_GetFileInfo E (Project.localPath p) (world m)).
  intros l. revert p m. induction l as [|file l IH]; intros p m Hm; cbn [fold_left].
  - exact Hm.
  - pose proof (processFile_kept p m file Hm) as H1.
    destruct (processFile (p, m) file) as [p1 m1]. apply IH, H1.
Qed.

Lemma nextBranch_memory (p : Project.t) (branches : list string) (m : Machine E) :
  files_ (nextBranch p branches m).2 = files_ m ∧
  fileHashes_ (nextBranch p branches m).2 = fileHashes_ m.
Proof.
  revert m. induction branches as [|b branches IH]; intros m; simpl; [auto|].
  destruct (Git_SetBranch E (Project.localPath p) b (world m)) as [[] w]; [auto|].
  destruct (IH (Error ("Unable to checkout branch " ++ b)
                  (emit (EvSetBranch (Project.localPath p) b false) (setWorld w m))))
    as [-> ->]. auto.
Qed.

Lemma branchLoop_kept (fuel : nat) (p : Project.t) (current : string)
    (branches : list string) (m : Machine E) p' m' :
  branchLoop fuel p current branches m = Some (p', m') →
  P (files_ m) (fileHashes_ m) → P (files_ m') (fileHashes_ m').
Proof.
  revert p current branches m.
  induction fuel as [|fuel IH]; intros p current branches m; simpl; [discriminate|].
  intros Hrun Hm.
  pose proof (processFiles_kept p current (Log ("Analyzing branch " ++ current) m) Hm) as H1.
  destruct (processFiles p current _) as [p1 m1]. simpl in H1.
  pose proof (nextBranch_memory p1 (erase current branches) m1) as [Hf Ht].
  destruct (nextBranch p1 (erase current branches) m1) as [[[c rest]|] m2];
    simpl in Hf, Ht; rewrite <- Hf, <- Ht in H1.
  - exact (IH _ _ _ _ Hrun H1).
  - injection Hrun as <- <-. exact H1.
Qed.

Lemma download_memory (p : Project.t) (m : Machine E) :
  files_ (download p m).2 = files_ m ∧ fileHashes_ (download p m).2 = fileHashes_ m.
Proof.
  unfold download. destruct (isDirectory _ _); simpl;
    destruct (Git_Clone E _ _ _) as [[] w]; auto.
Qed.

Lemma run_kept (fuel : nat) (task : Project.t) (m : Machine E) o m' :
  run fuel task m = Some (o, m') →
  P (files_ m) (fileHashes_ m) → P (files_ m') (fileHashes_ m').
Proof.
  unfold run. intros Hrun Hm.
  pose proof (download_memory task (Log ("Processing task " ++ Project.show task) m))
    as [Hf Ht].
  destruct (download task _) as [[task1|what] m1]; simpl in Hf, Ht.
  - destruct (processAllBranches fuel task1 m1) as [[task2 m2]|] eqn:Hb; [|discriminate].
    injection Hrun as <- <-. simpl.
    unfold processAllBranches in Hb. rewrite <- Hf, <- Ht in Hm.
    exact (branchLoop_kept _ _ _ _ _ _ _ Hb Hm).
  - injection Hrun as <- <-. rewrite Hf, Ht. exact Hm.
Qed.

End Kept.

(** ** One turn of the history loop, on memory *)

Section Turn.

Context {E : Env}.
Implicit Types (m : Machine E) (p : Project.t) (fh : Git.FileHistory).

Lemma files_contains_key (a b : FileSnapshot.t) (l : list FileSnapshot.t) :
  FileSnapshot.key a = FileSnapshot.key b → files_contains a l = files_contains b l.
Proof.
  intros Hk. unfold files_contains. induction l as [|x l IH]; [reflexivity|].
  simpl. rewrite IH. f_equal. unfold FileSnapshot.eqb, FileSnapshot.key in *.
  injection Hk as -> ->. reflexivity.
Qed.

Lemma files_contains_false (a : FileSnapshot.t) (l : list FileSnapshot.t) :
  files_contains a l = false → FileSnapshot.key a ∉ FileSnapshot.key <$> l.
Proof.
  unfold files_contains. induction l as [|x l IH]; simpl.
  - intros _. apply not_elem_of_nil.
  - rewrite orb_false_iff. intros [Hx Hl]. rewrite not_elem_of_cons. split.
    + intros Hk. apply eqb_key in Hk. congruence.
    + apply IH, Hl.
Qed.

(** Either nothing changes, or the revision was delivered, the store was
    asked for its id, and one snapshot goes to the end of [files_]. *)
Lemma processHistory_memory p m fh :
  let m' := processHistory p m fh in
  (files_ m' = files_ m ∧ fileHashes_ m' = fileHashes_ m) ∨
  ∃ text cid,
    files_contains (FileSnapshot.ofHistory fh) (files_ m) = false ∧
    Git_GetFileRevision E (Project.localPath p) fh (world m) = Some text ∧
    match fileHashes_ m !! Calculate E text with
    | Some i => cid = Some i ∧ fileHashes_ m' = fileHashes_ m
    | None => cid = None ∧
        fileHashes_ m' =
          <[ Calculate E text := wrap64 (Z.of_nat (size (fileHashes_ m))) ]> (fileHashes_ m)
    end ∧
    files_ m' = (files_ m ++
      [FileSnapshot.mk (wrap64 (Z.of_nat (length (files_ m)))) (Git.hash fh)
         (Git.filename fh) cid (Git.date fh)])%list.
Proof.
  unfold processHistory.
  destruct (files_contains _ (files_ m)) eqn:Hseen; [left; auto|].
  destruct (Git_GetFileRevision E _ fh (world m)) as [text|] eqn:Hr; [|left; auto].
  right. set (m0 := emit _ m).
  assert (Hins : ∀ cid (m1 : Machine E), files_ m1 = files_ m →
    files_insert
      (FileSnapshot.setContentId cid
         (FileSnapshot.setId (wrap64 (Z.of_nat (length (files_ m0))))
            (FileSnapshot.ofHistory fh))) (files_ m1)
    = (files_ m ++ [FileSnapshot.mk (wrap64 (Z.of_nat (length (files_ m))))
                      (Git.hash fh) (Git.filename fh) cid (Git.date fh)])%list).
  { intros cid m1 ->. unfold files_insert.
    rewrite (files_contains_key _ (FileSnapshot.ofHistory fh)) by reflexivity.
    rewrite Hseen. reflexivity. }
  destruct (fileHashes_ m !! Calculate E text) as [i|] eqn:Hl.
  - exists text, (Some i). rewrite (getContentId_hit text m0 i Hl), Hl.
    repeat split; auto. simpl. apply (Hins (Some i) m0). reflexivity.
  - pose proof (getContentId_miss text m0 Hl) as (Hr1 & Htab & _ & _ & Hfiles).
    destruct (getContentId text m0) as [cid m1]. simpl in Hr1, Htab, Hfiles. subst cid.
    exists text, None. rewrite Hl. repeat split; auto. simpl.
    apply (Hins None m1). exact Hfiles.
Qed.

Lemma ids_ok_insert (t : gmap (Hash E) Z) (h : Hash E) :
  t !! h = None → ids_ok t →
  ids_ok (<[ h := wrap64 (Z.of_nat (size t)) ]> t).
Proof.
  intros Hh Hok. unfold ids_ok. rewrite (map_size_insert_None _ _ _ Hh).
  intros Hsize.
  destruct Hok as [Hd Hu]; [lia|].
  rewrite wrap64_id by (unfold is_long, LONG_MIN, LONG_MAX in *; lia).
  split.
  - intros h' i. rewrite lookup_insert_Some, (map_size_insert_None _ _ _ Hh).
    intros [[_ <-] | [_ Hi]]; [lia|]. apply Hd in Hi. lia.
  - intros h1 h2 i. rewrite !lookup_insert_Some.
    intros [[<- <-] | [Hn1 H1]] [[<- Heq] | [Hn2 H2]].
    + reflexivity.
    + apply Hd in H2. lia.
    + apply Hd in H1. lia.
    + exact (Hu _ _ _ H1 H2).
Qed.

Lemma turn_ids_ok p m fh :
  ids_ok (fileHashes_ m) → ids_ok (fileHashes_ (processHistory p m fh)).
Proof.
  intros Hok. destruct (processHistory_memory p m fh) as [[_ ->] | (text & cid & _ & _ & Ht & _)];
    [exact Hok|].
  destruct (fileHashes_ m !! Calculate E text) eqn:Hl.
  - destruct Ht as [_ ->]. exact Hok.
  - destruct Ht as [_ ->]. apply ids_ok_insert; assumption.
Qed.

Lemma turn_snapshots_ok p m fh :
  snapshots_ok (files_ m) → snapshots_ok (files_ (processHistory p m fh)).
Proof.
  intros [Hnd Hid].
  destruct (processHistory_memory p m fh) as [[-> _] | (text & cid & Hseen & _ & _ & ->)];
    [split; assumption|].
  split.
  - rewrite fmap_app. apply NoDup_app. split; [exact Hnd|]. split.
    + intros k Hk Hk'. simpl in Hk'. apply list_elem_of_singleton in Hk'. subst k.
      apply (files_contains_false _ _ Hseen). exact Hk.
    + simpl. apply NoDup_singleton.
  - intros i fs Hi. apply lookup_app_Some in Hi as [Hi | [Hge Hi]].
    + apply Hid, Hi.
    + apply list_lookup_singleton_Some in Hi as [Hi <-]. simpl.
      f_equal. f_equal. lia.
Qed.

Lemma turn_grown (l0 : list FileSnapshot.t) (t0 : gmap (Hash E) Z) p m fh :
  l0 `prefix_of` files_ m ∧ t0 ⊆ fileHashes_ m →
  l0 `prefix_of` files_ (processHistory p m fh) ∧ t0 ⊆ fileHashes_ (processHistory p m fh).
Proof.
  intros [Hl Ht].
  destruct (processHistory_memory p m fh) as [[-> ->] | (text & cid & _ & _ & Hs & ->)];
    [auto|].
  split; [apply prefix_app_r, Hl|].
  destruct (fileHashes_ m !! Calculate E text) eqn:Hlk; destruct Hs as [_ ->]; [exact Ht|].
  etrans; [exact Ht|]. apply insert_subseteq, Hlk.
Qed.

End Turn.

(** ** Invariants of a run *)

Lemma ids_ok_empty {E : Env} : ids_ok (∅ : gmap (Hash E) Z).
Proof.
  intros _. split; [intros h i Hl | intros h1 h2 i Hl _];
    rewrite lookup_empty in Hl; discriminate.
Qed.

Lemma snapshots_ok_nil : snapshots_ok [].
Proof. split; [constructor | intros i fs Hl; discriminate]. Qed.

Lemma demo_run_repo :
  ∃ o, run 8 Demo.repo Demo.start = Some (o, Demo.afterRepo).
Proof.
  assert (Hsome : match run 8 Demo.repo Demo.start with Some _ => True | None => False end)
    by (vm_compute; exact I).
  unfold Demo.afterRepo.
  destruct (run 8 Demo.repo Demo.start) as [[o m]|]; [eauto | destruct Hsome].
Qed.

(** Content ids stay dense and unique over a run: if, before [run], the ids
    on record lie in [0, size) and no two hashes share one, the same holds
    afterwards (for as long as the table's size fits a [long]). *)
Theorem run_keeps_ids_ok {E : Env} (fuel : nat) (task : Project.t) (m : Machine E) o m' :
  run fuel task m = Some (o, m') →
  ids_ok (fileHashes_ m) → ids_ok (fileHashes_ m').
Proof.
  intros Hrun. apply (run_kept (λ _ t, ids_ok t)) with (1 := λ p m0 fh, turn_ids_ok p m0 fh)
                                                         (2 := Hrun).
Qed.

Lemma run_keeps_ids_ok_witness :
  ids_ok (fileHashes_ Demo.start) ∧ ids_ok (fileHashes_ Demo.afterRepo).
Proof.
  split; [apply ids_ok_empty|].
  destruct demo_run_repo as [o Hrun].
  exact (run_keeps_ids_ok 8 Demo.repo Demo.start o _ Hrun ids_ok_empty).
Defined.

(** The snapshot set stays well formed over a run: no two snapshots with
    the same (commit, path), and every snapshot's [id_] is the position at
    which it was inserted. *)
Theorem run_keeps_snapshots_ok {E : Env} (fuel : nat) (task : Project.t)
    (m : Machine E) o m' :
  run fuel task m = Some (o, m') →
  snapshots_ok (files_ m) → snapshots_ok (files_ m').
Proof.
  intros Hrun. apply (run_kept (λ l _, snapshots_ok l))
    with (1 := λ p m0 fh, turn_snapshots_ok p m0 fh) (2 := Hrun).
Qed.

Lemma run_keeps_snapshots_ok_witness :
  snapshots_ok (files_ Demo.start) ∧ snapshots_ok (files_ Demo.afterRepo).
Proof.
  split; [apply snapshots_ok_nil|].
  destruct demo_run_repo as [o Hrun].
  exact (run_keeps_snapshots_ok 8 Demo.repo Demo.start o _ Hrun snapshots_ok_nil).
Defined.

(** [run] only adds: the snapshots it found in [files_] are still there, in
    front and unchanged, and every hash that was on record still has the
    id it had. *)
Theorem run_only_adds {E : Env} (fuel : nat) (task : Project.t) (m : Machine E) o m' :
  run fuel task m = Some (o, m') →
  files_ m `prefix_of` files_ m' ∧ fileHashes_ m ⊆ fileHashes_ m'.
Proof.
  intros Hrun.
  apply (run_kept (λ l t, files_ m `prefix_of` l ∧ fileHashes_ m ⊆ t))
    with (1 := λ p m0 fh, turn_grown (files_ m) (fileHashes_ m) p m0 fh) (2 := Hrun).
  split; reflexivity.
Qed.

Lemma demo_run_seeded :
  ∃ o, run 8 Demo.repo Demo.seeded = Some (o, Demo.afterSeeded).
Proof.
  assert (Hsome : match run 8 Demo.repo Demo.seeded with Some _ => True | None => False end)
    by (vm_compute; exact I).
  unfold Demo.afterSeeded.
  destruct (run 8 Demo.repo Demo.seeded) as [[o m]|]; [eauto | destruct Hsome].
Qed.

(** The seeded worker's run, evaluated: the snapshot it held is still in
    front and two were added after it; the hash it had on record is still
    under id 0, beside two new ones. *)
Example demo_seeded_run :
  FileSnapshot.key <$> files_ Demo.seeded = [("c1", "src/a.js")] ∧
  FileSnapshot.key <$> files_ Demo.afterSeeded
    = [("c1", "src/a.js"); ("c0", "src/a.js"); ("c3", "src/a.js")] ∧
  fileHashes_ Demo.seeded !! "var a = 1; // c1" = Some 0 ∧
  fileHashes_ Demo.afterSeeded !! "var a = 1; // c1" = Some 0 ∧
  size (fileHashes_ Demo.afterSeeded) = 3%nat.
Proof. vm_compute. repeat split; reflexivity. Qed.

Lemma run_only_adds_witness :
  files_ Demo.seeded `prefix_of` files_ Demo.afterSeeded ∧
  fileHashes_ Demo.seeded ⊆ fileHashes_ Demo.afterSeeded.
Proof.
  destruct demo_run_seeded as [o Hrun].
  exact (run_only_adds 8 Demo.repo Demo.seeded o _ Hrun).
Defined.

(** ** Intake, row by row *)

Lemma wrap64_add_l (a b : Z) : wrap64 (wrap64 a + b) = wrap64 (a + b).
Proof.
  unfold wrap64.
  replace ((a + 2 ^ 63) mod 2 ^ 64 - 2 ^ 63 + b + 2 ^ 63)
    with ((a + 2 ^ 63) mod 2 ^ 64 + b) by lia.
  rewrite Z.add_mod_idemp_l by lia. f_equal. f_equal. lia.
Qed.

Lemma digits_nonneg (s : string) (acc : Z) : 0 <= acc → 0 <= Strtol.digits acc s.
Proof.
  revert acc. induction s as [|a s IH]; intros acc Hacc; simpl; [exact Hacc|].
  unfold Strtol.digit. destruct (decide _); [|exact Hacc]. apply IH. lia.
Qed.

Lemma strtol_is_long (s : string) : is_long (Strtol.strtol s).
Proof.
  assert (Hpos : ∀ r, is_long (Z.min LONG_MAX (Strtol.digits 0 r))).
  { intros r. pose proof (digits_nonneg r 0 ltac:(lia)).
    unfold is_long, LONG_MIN, LONG_MAX in *. lia. }
  assert (Hneg : ∀ r, is_long (Z.max LONG_MIN (- Strtol.digits 0 r))).
  { intros r. pose proof (digits_nonneg r 0 ltac:(lia)).
    unfold is_long, LONG_MIN, LONG_MAX in *. lia. }
  unfold Strtol.strtol. destruct (Strtol.skipSpace s) as [|a r]; [apply Hpos|].
  destruct a as [[] [] [] [] [] [] [] []]; cbv beta iota;
    lazymatch goal with
    | |- is_long (Z.max _ _) => apply Hneg
    | |- is_long (Z.min _ _) => apply Hpos
    end.
Qed.

Section Intake.

Context {E : Env}.
Implicit Types (m : Machine E) (filename : string) (rows : list (list string)).

Lemma feedRow_frame filename (st : Z * Machine E) (x : list string) :
  let st' := feedRow filename st x in
  st'.1 = (st.1 + 1) mod 2 ^ 32 ∧
  files_ st'.2 = files_ st.2 ∧ fileHashes_ st'.2 = fileHashes_ st.2 ∧
  world st'.2 = world st.2.
Proof. destruct x as [|x0 [|x1 [|x2 x]]]; simpl; auto. Qed.

Lemma feedRow_reports filename (i : nat) m (x : list string) :
  reports (trace (feedRow filename (Z.of_nat i mod 2 ^ 32, m) x).2)
  = (reports (trace m) ++ rowReport filename i x)%list.
Proof.
  assert (Hline : (Z.of_nat i mod 2 ^ 32 + 1) mod 2 ^ 32 = Z.of_nat (S i) mod 2 ^ 32).
  { rewrite Z.add_mod_idemp_l by lia. f_equal. lia. }
  destruct x as [|x0 [|x1 [|x2 x]]]; unfold feedRow, rowReport; cbn [fst snd];
    rewrite ?Hline; unfold Error, Schedule;
    cbn [Project.create Project.createWithId snd];
    rewrite ?trace_emit, ?reports_app; reflexivity.
Qed.

Lemma feedRow_scheduled_length filename (line : Z) m (x : list string) :
  length (scheduled (trace (feedRow filename (line, m) x).2))
  = (length (scheduled (trace m)) + rowScheduled x)%nat.
Proof.
  destruct x as [|x0 [|x1 [|x2 x]]]; unfold feedRow, rowScheduled; cbn [fst snd];
    unfold Error, Schedule, scheduled;
    cbn [Project.create Project.createWithId snd];
    rewrite ?trace_emit, omap_app, length_app; reflexivity.
Qed.

(** Intake accounts for every row: the line counter ends at the number of
    rows; each row with one or two fields schedules exactly one project and
    reports nothing; each other row schedules nothing and is reported
    once, under its own line number, in file order; the store, the snapshot
    set and the disk are not touched. *)
Theorem feedRows_accounting filename rows m :
  let st' := feedRows filename rows m in
  st'.1 = Z.of_nat (length rows) mod 2 ^ 32 ∧
  reports (trace st'.2)
    = (reports (trace m) ++ concat (imap (rowReport filename) rows))%list ∧
  length (scheduled (trace st'.2))
    = (length (scheduled (trace m)) + sum_list_with rowScheduled rows)%nat ∧
  files_ st'.2 = files_ m ∧ fileHashes_ st'.2 = fileHashes_ m ∧ world st'.2 = world m.
Proof.
  induction rows as [|x rows IH] using rev_ind.
  - cbn. rewrite app_nil_r, Nat.add_0_r. auto 10.
  - rewrite feedRows_snoc. cbn zeta in *.
    destruct (feedRows filename rows m) as [line m1].
    destruct IH as (Hline & Hrep & Hsch & Hf & Ht & Hw). cbn [fst snd] in *. subst line.
    pose proof (feedRow_frame filename (Z.of_nat (length rows) mod 2 ^ 32, m1) x)
      as (Hl' & Hf' & Ht' & Hw').
    cbn [fst snd] in *.
    split; [|split; [|split; [|split; [|split]]]].
    + rewrite Hl', length_app. cbn. rewrite Z.add_mod_idemp_l by lia. f_equal. lia.
    + rewrite feedRow_reports, Hrep, imap_app, concat_app, <- app_assoc. cbn.
      rewrite app_nil_r, Nat.add_0_r. reflexivity.
    + rewrite feedRow_scheduled_length, Hsch, sum_list_with_app. cbn. lia.
    + congruence.
    + congruence.
    + congruence.
Qed.

Lemma scheduled_app (a b : list Event) :
  scheduled (a ++ b) = (scheduled a ++ scheduled b)%list.
Proof. apply omap_app. Qed.

(** What one row does to the allocator and to the queue. *)
Lemma feedRow_effect filename (line : Z) m (x : list string) :
  let m' := (feedRow filename (line, m) x).2 in
  match x with
  | [x0] =>
      idIndex_ m' = wrap64 (idIndex_ m + 1) ∧
      scheduled (trace m')
        = (scheduled (trace m) ++ [Project.mk (idIndex_ m) x0 "" None])%list
  | [x0; x1] =>
      idIndex_ m' = Project.raiseIdIndex (casSpurious E) (Strtol.strtol x1) (idIndex_ m) ∧
      scheduled (trace m')
        = (scheduled (trace m) ++ [Project.mk (Strtol.strtol x1) x0 "" None])%list
  | _ => idIndex_ m' = idIndex_ m ∧ scheduled (trace m') = scheduled (trace m)
  end.
Proof.
  destruct x as [|x0 [|x1 [|x2 x]]]; unfold feedRow; cbn [fst snd];
    unfold Error, Schedule; cbn [Project.create Project.createWithId snd];
    rewrite trace_emit, scheduled_app; cbn; rewrite ?app_nil_r; auto.
Qed.

Lemma feedRows_from_cons filename (x : list string) rows (st : Z * Machine E) :
  fold_left (feedRow filename) (x :: rows) st
  = fold_left (feedRow filename) rows (feedRow filename st x).
Proof. reflexivity. Qed.

(** The induction behind the theorem below, from any line counter. *)
Lemma feed_allocator_above filename rows (st : Z * Machine E) (c : Z) :
  LONG_MIN <= idIndex_ st.2 <= c →
  Forall (λ s, s < c) (explicitIds rows) →
  c + Z.of_nat (length rows) <= LONG_MAX →
  Forall (λ p, Project.id p < idIndex_ st.2) (scheduled (trace st.2)) →
  let m' := (fold_left (feedRow filename) rows st).2 in
  Forall (λ p, Project.id p < idIndex_ m') (scheduled (trace m')).
Proof.
  revert st c. induction rows as [|x rows IH]; intros [line m] c Hk Hex Hlen Hinv;
    [exact Hinv|].
  rewrite feedRows_from_cons. cbn [fst snd] in *.
  rewrite length_cons in Hlen.
  pose proof (feedRow_effect filename line m x) as Heff. cbn zeta in Heff.
  destruct (feedRow filename (line, m) x) as [line1 m1]. cbn [fst snd] in *.
  assert (Hweak : ∀ k', idIndex_ m <= k' →
            Forall (λ p, Project.id p < k') (scheduled (trace m))).
  { intros k' Hk'. eapply Forall_impl; [exact Hinv|]. intros p Hp. simpl in *. lia. }
  assert (Hlong : ∀ z, LONG_MIN <= z → z <= c → wrap64 (z + 1) = z + 1).
  { intros z Hz1 Hz2. apply wrap64_id. unfold is_long, LONG_MIN, LONG_MAX in *. lia. }
  apply (IH (line1, m1) (c + 1)); cbn [fst snd].
  - destruct x as [|x0 [|x1 [|x2 x]]]; destruct Heff as [-> _]; try lia.
    + rewrite Hlong by lia. lia.
    + apply Forall_cons in Hex as [Hx1 _]. pose proof (strtol_is_long x1) as [Hs _].
      destruct (decide (idIndex_ m <= Strtol.strtol x1)) as [Hle|Hgt].
      * rewrite raiseIdIndex_le by exact Hle. rewrite Hlong by lia. lia.
      * rewrite raiseIdIndex_gt by lia. lia.
  - assert (Hall : Forall (λ s, s < c + 1) (explicitIds (x :: rows)))
      by (eapply Forall_impl; [exact Hex | intros s Hs; simpl in Hs; lia]).
    destruct x as [|x0 [|x1 [|x2 x]]]; try exact Hall.
    apply Forall_cons in Hall as [_ Hall]. exact Hall.
  - lia.
  - destruct x as [|x0 [|x1 [|x2 x]]]; destruct Heff as [-> ->]; try exact Hinv.
    + rewrite Hlong by lia. apply Forall_app. split; [apply Hweak; lia|].
      apply Forall_singleton. unfold Project.id. simpl. lia.
    + apply Forall_cons in Hex as [Hx1 _]. pose proof (strtol_is_long x1) as [Hs _].
      destruct (decide (idIndex_ m <= Strtol.strtol x1)) as [Hle|Hgt].
      * rewrite raiseIdIndex_le by exact Hle. rewrite Hlong by lia.
        apply Forall_app. split; [apply Hweak; lia|].
        apply Forall_singleton. unfold Project.id. simpl. lia.
      * rewrite raiseIdIndex_gt by lia.
        apply Forall_app. split; [exact Hinv|].
        apply Forall_singleton. unfold Project.id. simpl. lia.
Qed.

(** The allocator stays above every id handed out: if it starts above all
    ids scheduled so far, and the allocator and the explicit ids of the
    rows leave room below [LONG_MAX] for one more id per row, then after
    intake it is still above every scheduled id, explicit ones included —
    so the next automatic id is fresh. *)
Theorem feedRows_allocator_above filename rows m (c : Z) :
  LONG_MIN <= idIndex_ m <= c →
  Forall (λ s, s < c) (explicitIds rows) →
  c + Z.of_nat (length rows) <= LONG_MAX →
  Forall (λ p, Project.id p < idIndex_ m) (scheduled (trace m)) →
  let m' := (feedRows filename rows m).2 in
  Forall (λ p, Project.id p < idIndex_ m') (scheduled (trace m')).
Proof. intros Hk Hex Hlen Hinv. exact (feed_allocator_above filename rows (0, m) c Hk Hex Hlen Hinv). Qed.

(** Automatic ids are consecutive: rows of one field each, taken in with
    the allocator at [k] and room for them below the end of [long], are
    scheduled under [k], [k + 1], ... in file order, and the allocator
    moves on by their number. *)
Theorem feedRows_auto_ids filename (urls : list string) m :
  is_long (idIndex_ m) →
  idIndex_ m + Z.of_nat (length urls) <= LONG_MAX + 1 →
  let m' := (feedRows filename ((λ u, [u]) <$> urls) m).2 in
  scheduled (trace m')
    = (scheduled (trace m)
       ++ imap (λ i u, Project.mk (idIndex_ m + Z.of_nat i) u "" None) urls)%list ∧
  idIndex_ m' = wrap64 (idIndex_ m + Z.of_nat (length urls)).
Proof.
  intros Hmin. induction urls as [|u urls IH] using rev_ind; intros Hlen.
  - cbn. rewrite app_nil_r, Z.add_0_r.
    split; [reflexivity|]. symmetry. apply wrap64_id.
    unfold is_long, LONG_MIN, LONG_MAX in *. cbn in Hlen. lia.
  - rewrite length_app in Hlen. cbn in Hlen.
    destruct IH as [Hsch Hidx]; [lia|].
    rewrite fmap_app. change ((λ u0 : string, [u0]) <$> [u]) with [[u]].
    rewrite feedRows_snoc. cbn zeta in *.
    destruct (feedRows filename ((λ u0, [u0]) <$> urls) m) as [line m1].
    cbn [fst snd] in *.
    pose proof (feedRow_effect filename line m1 [u]) as [Hi Hs]. cbn zeta in *.
    rewrite Hi, Hs, Hsch, Hidx, imap_app, <- app_assoc, length_app. cbn.
    rewrite wrap64_add_l.
    rewrite (wrap64_id (idIndex_ m + Z.of_nat (length urls)))
      by (unfold is_long, LONG_MIN, LONG_MAX in *; lia).
    rewrite Nat.add_0_r. split; [reflexivity|]. f_equal. lia.
Qed.

End Intake.

Lemma feedRows_allocator_above_witness :
  let m' := (feedRows "project_urls.csv" Demo.seedRows Demo.start).2 in
  Forall (λ p, Project.id p < idIndex_ m') (scheduled (trace m')).
Proof.
  apply (feedRows_allocator_above (E := Demo.env) "project_urls.csv" Demo.seedRows
           Demo.start 8).
  - vm_compute. split; discriminate.
  - vm_compute. repeat constructor.
  - vm_compute. discriminate.
  - vm_compute. constructor.
Defined.

Lemma feedRows_auto_ids_witness :
  let m' := (feedRows "f" ((λ u, [u]) <$> ["a"; "b"; "c"]) Demo.start).2 in
  Project.id <$> scheduled (trace m') = [0; 1; 2] ∧ idIndex_ m' = 3.
Proof.
  destruct (feedRows_auto_ids (E := Demo.env) "f" ["a"; "b"; "c"] Demo.start)
    as [Hs Hi]; [vm_compute; split; discriminate | vm_compute; discriminate |].
  split; [|exact Hi]. reflexivity.
Defined.

(** ** The store, call by call *)

Section Store.

Context {E : Env}.
Implicit Types (m : Machine E) (text : string).

Lemma getContentId_miss_world text m :
  fileHashes_ m !! Calculate E text = None →
  let id := wrap64 (Z.of_nat (size (fileHashes_ m))) in
  files (world (getContentId text m).2) = <[ blobFile E id := text ]> (files (world m)).
Proof.
  intros Hmiss. unfold getContentId. rewrite Hmiss.
  destruct (ClosesPathDir E _); reflexivity.
Qed.

(** The store tells contents apart by their hash only: once a text is
    registered, any text with the same hash — the same bytes or not — is
    handed the id of the first, nothing is written for it, and the blob of
    that id still holds the first text. *)
Theorem getContentId_same_hash (text1 text2 : string) m :
  Calculate E text1 = Calculate E text2 →
  fileHashes_ m !! Calculate E text1 = None →
  let id := wrap64 (Z.of_nat (size (fileHashes_ m))) in
  let m1 := (getContentId text1 m).2 in
  getContentId text2 m1 = (Some id, m1) ∧
  files (world m1) !! blobFile E id = Some text1.
Proof.
  intros Heq Hmiss id m1.
  pose proof (getContentId_miss text1 m Hmiss) as (_ & Htab & Hfile & _).
  split; [|exact Hfile].
  apply getContentId_hit. rewrite <- Heq. subst m1. rewrite Htab.
  apply lookup_insert_eq.
Qed.

(** A sequential call keeps the store backed by the disk: if every hash on
    record has, in the blob file of its id, bytes with that hash, and the
    blob file of the next id is that of no id on record, the same holds
    after [getContentId]. *)
Theorem getContentId_keeps_backed text m :
  backed m →
  (∀ h j, fileHashes_ m !! h = Some j →
     blobFile E j ≠ blobFile E (wrap64 (Z.of_nat (size (fileHashes_ m))))) →
  backed (getContentId text m).2.
Proof.
  intros Hb Hfresh.
  destruct (fileHashes_ m !! Calculate E text) as [i|] eqn:Hl.
  { rewrite (getContentId_hit _ _ _ Hl). exact Hb. }
  pose proof (getContentId_miss text m Hl) as (_ & Htab & _).
  pose proof (getContentId_miss_world text m Hl) as Hw.
  cbn zeta in *. intros h j. rewrite Htab, Hw, lookup_insert_Some.
  intros [[<- <-] | [Hne Hj]].
  - exists text. rewrite lookup_insert_eq. auto.
  - destruct (Hb h j Hj) as (text' & Hfile & Hhash).
    exists text'. rewrite lookup_insert_ne by (apply not_eq_sym, (Hfresh h j Hj)). auto.
Qed.

Lemma fresh_of_singleton (h0 : Hash E) (i0 id : Z) (t : gmap (Hash E) Z) :
  t = <[ h0 := i0 ]> ∅ → blobFile E i0 ≠ blobFile E id →
  ∀ h j, t !! h = Some j → blobFile E j ≠ blobFile E id.
Proof.
  intros -> Hne h j Hl. apply lookup_insert_Some in Hl as [[_ <-] | [_ Hl]];
    [exact Hne | rewrite lookup_empty in Hl; discriminate].
Qed.

End Store.

Lemma getContentId_same_hash_witness :
  let m1 := (getContentId "var a = 1;" Demo.lengthStart).2 in
  getContentId "var b = 2;" m1 = (Some 0, m1) ∧
  files (world m1) !! blobFile Demo.lengthEnv 0 = Some "var a = 1;".
Proof.
  exact (getContentId_same_hash (E := Demo.lengthEnv) "var a = 1;" "var b = 2;"
           Demo.lengthStart eq_refl eq_refl).
Defined.

Lemma backed_start : backed Demo.start.
Proof.
  intros h i Hl. change (fileHashes_ Demo.start) with (∅ : gmap string Z) in Hl.
  rewrite lookup_empty in Hl. discriminate.
Qed.

Lemma getContentId_keeps_backed_witness :
  let m1 := (getContentId "var a = 1;" Demo.start).2 in
  backed (getContentId "var b = 2;" m1).2.
Proof.
  assert (Hfresh0 : ∀ h j, fileHashes_ Demo.start !! h = Some j →
            blobFile Demo.env j
            ≠ blobFile Demo.env (wrap64 (Z.of_nat (size (fileHashes_ Demo.start))))).
  { intros h j Hl. change (fileHashes_ Demo.start) with (∅ : gmap string Z) in Hl.
    rewrite lookup_empty in Hl. discriminate. }
  pose proof (getContentId_keeps_backed (E := Demo.env) "var a = 1;" Demo.start
                backed_start Hfresh0) as Hb1.
  apply (getContentId_keeps_backed (E := Demo.env) "var b = 2;" _ Hb1).
  apply (fresh_of_singleton (E := Demo.env) "var a = 1;" 0).
  - exact (proj1 (proj2 (getContentId_miss (E := Demo.env) "var a = 1;" Demo.start eq_refl))).
  - vm_compute. discriminate.
Defined.

(** ** Workspaces and blobs *)

Lemma append_assoc (a b c : string) : (a ++ b) ++ c = a ++ (b ++ c).
Proof.
  induction a as [|x a IH]; [reflexivity|].
  change (String x ((a ++ b) ++ c) = String x (a ++ (b ++ c))). f_equal. exact IH.
Qed.

Lemma prefix_append (a b c : string) :
  String.prefix (a ++ b) (a ++ c) = String.prefix b c.
Proof.
  induction a as [|x a IH]; [reflexivity|].
  change (String.prefix (String x (a ++ b)) (String x (a ++ c)) = String.prefix b c).
  simpl. destruct (ascii_dec x x); [exact IH | contradiction].
Qed.

Section Workspace.

Context {E : Env}.
Implicit Types (m : Machine E) (p : Project.t).

(** No blob file lies in or under a workspace: the one is below
    [<out>/files], the other below [<out>/temp]. *)
Lemma blob_not_beneath_workspace (s : string) (id : Z) :
  beneath (TempPath E ++ "/" ++ s) (blobFile E id) = false.
Proof.
  unfold beneath, blobFile, targetDirOf, TempPath, FilesPath.
  rewrite !append_assoc. apply orb_false_iff. split.
  - apply bool_decide_eq_false. intros Heq. apply String.app_inj in Heq.
    cbv [String.append] in Heq. discriminate.
  - rewrite prefix_append. reflexivity.
Qed.

Lemma deletePath_keeps_blob (s : string) (id : Z) (w : World (G E)) :
  files (deletePath (TempPath E ++ "/" ++ s) w) !! blobFile E id
  = files w !! blobFile E id.
Proof.
  unfold deletePath. simpl. rewrite map_lookup_filter.
  destruct (files w !! blobFile E id) as [text|]; [|reflexivity]. simpl.
  rewrite option_guard_True; [reflexivity|]. simpl. apply blob_not_beneath_workspace.
Qed.

(** Tearing a workspace down never costs the store a blob: for a project
    whose workspace is where [download] puts it, [deleteProject] leaves
    every blob file as it was. *)
Theorem deleteProject_keeps_blobs p m (id : Z) :
  Project.localPath p = TempPath E ++ "/" ++ pretty (Project.id p) →
  files (world (deleteProject p m)) !! blobFile E id
  = files (world m) !! blobFile E id.
Proof.
  intros Hpath. unfold deleteProject, Log. simpl. rewrite Hpath.
  apply deletePath_keeps_blob.
Qed.

(** [download] clones into a path no directory occupies: whatever was
    there is deleted first, the git layer's own state is left alone, and
    the call returns, with the workspace path recorded in the project,
    exactly when the clone succeeds. *)
Theorem download_into_fresh p m :
  let path := TempPath E ++ "/" ++ pretty (Project.id p) in
  ∃ w0, isDirectory path w0 = false ∧ git w0 = git (world m) ∧
    world (download p m).2 = (Git_Clone E (Project.gitUrl p) path w0).2 ∧
    match (download p m).1 with
    | Returned p' =>
        (Git_Clone E (Project.gitUrl p) path w0).1 = true ∧
        p' = Project.setLocalPath path p
    | Thrown _ => (Git_Clone E (Project.gitUrl p) path w0).1 = false
    end.
Proof.
  intros path. unfold download. fold path.
  change (Project.localPath (Project.setLocalPath path p)) with path.
  change (Project.gitUrl (Project.setLocalPath path p)) with (Project.gitUrl p).
  destruct (isDirectory path (world m)) eqn:Hdir.
  - exists (deletePath path (world m)). split; [apply isDirectory_deletePath|].
    split; [reflexivity|]. simpl.
    destruct (Git_Clone E (Project.gitUrl p) path (deletePath path (world m))) as [[] w];
      simpl; auto.
  - exists (world m). split; [exact Hdir|]. split; [reflexivity|].
    destruct (Git_Clone E (Project.gitUrl p) path (world m)) as [[] w]; simpl; auto.
Qed.

(** A project whose clone fails leaves the worker's memory and the store
    alone: when [run] ends by the exception, [files_] and [fileHashes_]
    are as before, and no revision was asked for, no branch checked out
    and no blob written. *)
Theorem run_thrown_untouched (fuel : nat) (task : Project.t) m what m' :
  run fuel task m = Some (Thrown what, m') →
  files_ m' = files_ m ∧ fileHashes_ m' = fileHashes_ m ∧
  writes (trace m') = writes (trace m) ∧
  fetches (trace m') = fetches (trace m) ∧
  checkouts (trace m') = checkouts (trace m).
Proof.
  unfold run. set (m0 := Log _ m).
  destruct (download task m0) as [[task1|what1] m1] eqn:Hd.
  { destruct (processAllBranches fuel task1 m1) as [[task2 m2]|]; discriminate. }
  intros [= <- <-]. revert Hd. unfold download.
  destruct (isDirectory _ (world m0)); simpl;
    destruct (Git_Clone E _ _ _) as [[] w]; try discriminate;
    intros [= _ <-]; unfold writes, fetches, checkouts; simpl;
    rewrite ?omap_app; simpl; rewrite ?app_nil_r; auto.
Qed.

(** A project none of whose tracked files the pattern list accepts costs
    nothing: [processFiles] leaves the machine exactly as it was (no
    history read, no revision fetched), and only sets the project's flag,
    and that only when some file is denied. *)
Theorem processFiles_none_accepted p (branchName : string) m :
  let tracked := Git_GetFileInfo E (Project.localPath p) (world m) in
  Forall (λ file, (filePattern_check E (Git.fi_filename file)).1 = false) tracked →
  let '(p', m') := processFiles p branchName m in
  m' = m ∧
  p' = if existsb (λ file, (filePattern_check E (Git.fi_filename file)).2) tracked
       then Project.setHasDeniedFiles true p else p.
Proof.
  intros tracked. unfold processFiles. fold tracked. clearbody tracked.
  assert (Hgen : ∀ q, (q = p ∨ q = Project.setHasDeniedFiles true p) →
    Forall (λ file, (filePattern_check E (Git.fi_filename file)).1 = false) tracked →
    let '(p', m') := fold_left processFile tracked (q, m) in
    m' = m ∧
    p' = if existsb (λ file, (filePattern_check E (Git.fi_filename file)).2) tracked
         then Project.setHasDeniedFiles true p else q).
  { induction tracked as [|file l IH]; intros q Hcase Hall; cbn [fold_left existsb].
    - auto.
    - apply Forall_cons in Hall as [Hfile Hall]. unfold processFile at 2.
      destruct (filePattern_check E (Git.fi_filename file)) as [accepted denied].
      simpl in Hfile. subst accepted. destruct denied; cbn [snd orb].
      + specialize (IH (Project.setHasDeniedFiles true q)).
        destruct (fold_left processFile l (Project.setHasDeniedFiles true q, m))
          as [p' m'].
        destruct IH as [Hm Hp]; [| exact Hall |].
        * right. destruct Hcase as [-> | ->]; reflexivity.
        * split; [exact Hm|]. rewrite Hp.
          destruct (existsb _ l); [reflexivity|].
          destruct Hcase as [-> | ->]; reflexivity.
      + exact (IH q Hcase Hall). }
  intros Hall. exact (Hgen p (or_introl eq_refl) Hall).
Qed.

End Workspace.

Lemma deleteProject_keeps_blobs_witness :
  Project.localPath Demo.clonedRepo
    = TempPath Demo.env ++ "/" ++ pretty (Project.id Demo.clonedRepo) ∧
  files (world Demo.seeded) !! blobFile Demo.env 0 = Some "var a = 1; // c1" ∧
  files (world (deleteProject Demo.clonedRepo Demo.seeded)) !! blobFile Demo.env 0
  = files (world Demo.seeded) !! blobFile Demo.env 0.
Proof.
  split; [reflexivity|]. split; [reflexivity|].
  exact (deleteProject_keeps_blobs (E := Demo.env) Demo.clonedRepo Demo.seeded 0 eq_refl).
Defined.

Lemma demo_run_gone :
  ∃ what m', run 5 Demo.gone Demo.start = Some (Thrown what, m').
Proof.
  assert (Hthrown : match run 5 Demo.gone Demo.start with
                    | Some (Thrown _, _) => True
                    | _ => False
                    end) by (vm_compute; exact I).
  destruct (run 5 Demo.gone Demo.start) as [[[task|what] m']|];
    [destruct Hthrown | eauto | destruct Hthrown].
Qed.

Lemma run_thrown_untouched_witness :
  ∃ what m', run 5 Demo.gone Demo.start = Some (Thrown what, m') ∧
    files_ m' = files_ Demo.start ∧ fileHashes_ m' = fileHashes_ Demo.start ∧
    writes (trace m') = writes (trace Demo.start) ∧
    fetches (trace m') = fetches (trace Demo.start) ∧
    checkouts (trace m') = checkouts (trace Demo.start).
Proof.
  destruct demo_run_gone as (what & m' & Hrun).
  exists what, m'. split; [exact Hrun|].
  exact (run_thrown_untouched 5 Demo.gone Demo.start what m' Hrun).
Defined.

Lemma processFiles_none_accepted_witness :
  let '(p', m') := processFiles Demo.clonedRepo "master" Demo.denyCloned in
  m' = Demo.denyCloned ∧ p' = Project.setHasDeniedFiles true Demo.clonedRepo.
Proof.
  apply (processFiles_none_accepted (E := Demo.denyEnv) Demo.clonedRepo "master"
           Demo.denyCloned).
  vm_compute. repeat constructor.
Defined.

Lemma demo_run_repo_returned :
  ∃ task', run 8 Demo.repo Demo.start = Some (Returned task', Demo.afterRepo).
Proof.
  assert (Hret : match run 8 Demo.repo Demo.start with
                 | Some (Returned _, _) => True
                 | _ => False
                 end) by (vm_compute; exact I).
  unfold Demo.afterRepo.
  destruct (run 8 Demo.repo Demo.start) as [[[task'|what] m']|];
    [eauto | destruct Hret | destruct Hret].
Qed.

Lemma run_returned_workspace_gone_witness :
  ∃ task', run 8 Demo.repo Demo.start = Some (Returned task', Demo.afterRepo) ∧
    isDirectory (Project.localPath task') (world Demo.afterRepo) = false.
Proof.
  destruct demo_run_repo_returned as [task' Hrun].
  exists task'. split; [exact Hrun|].
  exact (run_returned_workspace_gone 8 Demo.repo Demo.start task' Demo.afterRepo Hrun).
Defined.

(** ** The snapshot hash *)

(** The hash does not tell commit from path: a snapshot whose commit and
    path differ is unequal, under [operator ==], to the snapshot with the
    two exchanged, and yet both have the same [std::hash<FileSnapshot>]. *)
Theorem hash_swapped (hash_string : string → Z) (f : FileSnapshot.t) :
  FileSnapshot.commit f ≠ FileSnapshot.relPath f →
  FileSnapshot.eqb f (swapped f) = false ∧
  FileSnapshot.hash hash_string f = FileSnapshot.hash hash_string (swapped f).
Proof.
  intros Hne. split.
  - unfold FileSnapshot.eqb, swapped. simpl.
    rewrite bool_decide_eq_false_2; [reflexivity | exact Hne].
  - unfold FileSnapshot.hash, swapped, FileSnapshot.commit, FileSnapshot.relPath.
    simpl. f_equal. lia.
Qed.

Lemma hash_swapped_witness :
  let f := FileSnapshot.ofHistory Demo.c1 in
  let h := λ s : string, Z.of_nat (String.length s) * 2 ^ 60 in
  FileSnapshot.eqb f (swapped f) = false ∧
  FileSnapshot.hash h f = FileSnapshot.hash h (swapped f).
Proof.
  apply (hash_swapped _ (FileSnapshot.ofHistory Demo.c1)). vm_compute. discriminate.
Defined.

(** ** Two workers, two contents *)

Section Race.

Context {E : Env}.
Import Concurrent.

(** Without a lock, two workers that register different contents at the
    same time can be given the same id: both read the table's size before
    either inserts.  Both hashes then sit on record under one id, and the
    blob file of that id holds whatever was written last — the first
    content is lost. *)
Theorem two_misses_share_id (text1 text2 : string) (m : Machine E) :
  let id := wrap64 (Z.of_nat (size (fileHashes_ m))) in
  Calculate E text1 ≠ Calculate E text2 →
  fileHashes_ m !! Calculate E text1 = None →
  fileHashes_ m !! Calculate E text2 = None →
  let '(pcs, m') :=
    runSchedule [0; 0; 0; 1; 1; 1; 0; 1; 0; 0; 1; 1]%nat
      ([AtCalculate text1; AtCalculate text2], m) in
  pcs = [AtClosesPathDir text1 id; AtClosesPathDir text2 id] ∧
  fileHashes_ m' !! Calculate E text1 = Some id ∧
  fileHashes_ m' !! Calculate E text2 = Some id ∧
  files (world m') !! blobFile E id = Some text2.
Proof.
  intros id Hne H1 H2. unfold runSchedule.
  cbn [fold_left stepWorker fst snd step lookup list_lookup insert list_insert].
  rewrite H1.
  cbn [fold_left stepWorker fst snd step lookup list_lookup insert list_insert].
  rewrite H2.
  cbn [fold_left stepWorker fst snd step lookup list_lookup insert list_insert
       setFileHashes setWorld emit fileHashes_ world files createPathIfMissing writeFile].
  fold id. rewrite (map_insert_new_fresh _ _ _ H1).
  assert (H2' : <[Calculate E text1 := id]> (fileHashes_ m) !! Calculate E text2 = None)
    by (rewrite lookup_insert_ne; [exact H2 | exact Hne]).
  rewrite (map_insert_new_fresh _ _ _ H2').
  split; [reflexivity|]. split; [|split].
  - rewrite lookup_insert_ne by (apply not_eq_sym, Hne). apply lookup_insert_eq.
  - apply lookup_insert_eq.
  - apply lookup_insert_eq.
Qed.

End Race.

Lemma two_misses_share_id_witness :
  let '(pcs, m') :=
    Concurrent.runSchedule [0; 0; 0; 1; 1; 1; 0; 1; 0; 0; 1; 1]%nat
      ([Concurrent.AtCalculate "var a = 1;"; Concurrent.AtCalculate "var b = 2;"],
       Demo.start) in
  pcs = [Concurrent.AtClosesPathDir "var a = 1;" 0;
         Concurrent.AtClosesPathDir "var b = 2;" 0] ∧
  fileHashes_ m' !! Calculate Demo.env "var a = 1;" = Some 0 ∧
  fileHashes_ m' !! Calculate Demo.env "var b = 2;" = Some 0 ∧
  files (world m') !! blobFile Demo.env 0 = Some "var b = 2;".
Proof.
  apply (two_misses_share_id (E := Demo.env) "var a = 1;" "var b = 2;" Demo.start);
    [vm_compute; discriminate | reflexivity | reflexivity].
Defined.
